(** * demo-customer-web: pagination window, request error classification,
      form submission and the listing controller.

    A shallow embedding of the TypeScript sources:
    - [getPages] (pages/listing.tsx),
    - [NetError] (utils/net-error.ts),
    - the request operations [fetchCustomerListing], [fetchCustomer],
      [registerCustomer], [updateCustomer], [deleteCustomer],
    - the submit handlers of the register and manage forms,
    - the [Listing] component's page state, query and delete mutation.

    The numbers the program meets are integers, modelled by [Z].  A
    JavaScript number is a binary64 value: [Binary64] gives the rounding of
    sums and differences of integers and the printing of numbers.
    [Pagination.getPages] reads the page arithmetic over the exact
    integers, [Pagination64.getPages] is the same function with every sum
    and difference rounded as JavaScript rounds it; the two agree when
    [totalPages] is at most [2^53 - 1] (lemma [getPages_binary64_exact]).
    Strings are [string]s, promise outcomes a two-case sum, objects used as
    dictionaries [gmap]s.

    Two libraries the program calls are not part of the repository: the
    schema library (module [Zod]) and the data-fetching library (the query
    cache in modules [Listing] and [Manage]).  What is defined for them is
    a model of their documented behaviour, not a translation of source
    text; the comments of [Zod] and of the library definitions in
    [Listing] and [Manage] say so. *)

From Stdlib Require Import ZArith Lia Ascii String.
From stdpp Require Import base decidable numbers list strings pretty gmap fin_maps sorting.

Set Warnings "-register-all".
Local Open Scope Z_scope.

(** ** Binary64 arithmetic on integers *)

Module Binary64.

(** The binary64 value nearest to the integer [z], ties to the even
    significand.  Integers of magnitude below [2^53] are binary64 values;
    a larger one keeps its top 53 bits, rounded.  The exponent range is
    left out: an integer of magnitude [2^1024] or more, which JavaScript
    rounds to an infinity, is outside this model. *)
Definition round53 (z : Z) : Z :=
  let a := Z.abs z in
  if decide (a < 2 ^ 53) then z
  else
    let e := Z.log2 a - 52 in
    let q := a `div` 2 ^ e in
    let r := a `mod` 2 ^ e in
    let half := 2 ^ (e - 1) in
    let q' := if decide (r < half) then q
              else if decide (half < r) then q + 1
              else if Z.even q then q else q + 1 in
    Z.sgn z * (q' * 2 ^ e).

(** [a + b] and [a - b] on integer-valued numbers. *)
Definition add (a b : Z) : Z := round53 (a + b).
Definition sub (a b : Z) : Z := round53 (a - b).

(** [Number.MAX_SAFE_INTEGER] *)
Definition MAX_SAFE_INTEGER : Z := 2 ^ 53 - 1.

(** [Number.prototype.toString] and the template literal [`${x}`] on an
    integer-valued number [x]: the shortest run of digits [s], [k] of
    them, such that [s * 10^(n-k)] is the number [x]; of two runs of the
    same length the one nearer to [x], the even one on a tie.  The digits
    are followed by [n - k] zeros when [n ≤ 21], and written with an
    exponent otherwise. *)
Definition decimal_length (x : Z) : Z := Z.of_nat (String.length (pretty x)).

Definition rounds_to (x scale s : Z) : bool :=
  bool_decide (round53 (s * scale) = x).

Definition pick_digits (x scale : Z) : option Z :=
  let lo := x `div` scale in
  let hi := lo + 1 in
  match rounds_to x scale lo, rounds_to x scale hi with
  | true, true =>
      let below := x - lo * scale in
      let above := hi * scale - x in
      if decide (below < above) then Some lo
      else if decide (above < below) then Some hi
      else if Z.even lo then Some lo else Some hi
  | true, false => Some lo
  | false, true => Some hi
  | false, false => None
  end.

(** The digits and their number, trying [k], [k + 1], ... up to all [d]
    digits of [x]. *)
Fixpoint shortest_digits (fuel : nat) (k d x : Z) : Z * Z :=
  match fuel with
  | O => (x, d)
  | S fuel' =>
      match pick_digits x (10 ^ (d - k)) with
      | Some s => (s, k)
      | None => shortest_digits fuel' (k + 1) d x
      end
  end.

Fixpoint zeros (n : nat) : string :=
  match n with
  | O => ""
  | S n' => "0" +:+ zeros n'
  end.

Definition positive_toString (x : Z) : string :=
  let d := decimal_length x in
  let sk := shortest_digits (Z.to_nat d) 1 d x in
  let carried := bool_decide (sk.1 = 10 ^ sk.2) in
  let s := if carried then sk.1 `div` 10 else sk.1 in
  let k := sk.2 in
  let n := if carried then d + 1 else d in
  let digits := pretty s in
  if decide (n ≤ 21) then digits +:+ zeros (Z.to_nat (n - k))
  else
    match digits with
    | String first "" => String first "" +:+ "e+" +:+ pretty (n - 1)
    | String first rest =>
        String first "" +:+ "." +:+ rest +:+ "e+" +:+ pretty (n - 1)
    | EmptyString => ""
    end.

Definition Number_toString (x : Z) : string :=
  if decide (x = 0) then "0"
  else if decide (x < 0) then "-" +:+ positive_toString (- x)
  else positive_toString x.

End Binary64.

(** ** The page-window calculator *)

Module Pagination.

(** [Math.min], [Math.max] and [Math.floor(x / 2)] on integers.  Halving
    an integer-valued number is exact in binary64, so the floor of the
    half is the integer quotient. *)
Definition Math_min (a b : Z) : Z := Z.min a b.
Definition Math_max (a b : Z) : Z := Z.max a b.
Definition Math_floor_half (a : Z) : Z := a `div` 2.

(** [Array.from({ length: len }, (_, index) => f index)]: indices
    [0 .. len-1]; a length that is zero or negative gives the empty array.
    A length above [2^32 - 1], at which [Array.from] throws, is handled in
    [Pagination64.Array_from]. *)
Definition Array_from {A} (len : Z) (f : Z → A) : list A := f <$> seqZ 0 len.

Definition defaultMaxVisiblePages : Z := 5.

(** [getPages] with its sums and differences over the exact integers:
    what the function computes for every [totalPages] up to [2^53 - 1]
    (lemma [getPages_binary64_exact]); [Pagination64.getPages] below
    covers every integer a number can hold. *)
Definition getPages (currentPage totalPages maxVisiblePages : Z) : list Z :=
  let totalPageNumbers := Math_min maxVisiblePages totalPages in
  let halfWay := Math_floor_half totalPageNumbers in
  let startPage :=
    Math_max
      (Math_min (currentPage - halfWay) (totalPages - totalPageNumbers + 1))
      1 in
  let endPage := Math_min (startPage + totalPageNumbers - 1) totalPages in
  Array_from (endPage - startPage + 1) (λ index, startPage + index).

(** The two intermediate values, exposed for the proofs. *)
Definition startPage (currentPage totalPages maxVisiblePages : Z) : Z :=
  let totalPageNumbers := Math_min maxVisiblePages totalPages in
  Math_max
    (Math_min (currentPage - Math_floor_half totalPageNumbers)
              (totalPages - totalPageNumbers + 1))
    1.

Definition endPage (currentPage totalPages maxVisiblePages : Z) : Z :=
  Math_min
    (startPage currentPage totalPages maxVisiblePages
     + Math_min maxVisiblePages totalPages - 1)
    totalPages.

End Pagination.

(** ** The page-window calculator in binary64 *)

Module Pagination64.
Import Binary64 Pagination.

(** The greatest length of an array, [2^32 - 1]. *)
Definition maxArrayLength : Z := 2 ^ 32 - 1.

(** [Array.from({ length: len }, (_, index) => f index)]: the array is
    created with [new Array(len)], which throws a [RangeError] ([None])
    when [len] exceeds [2^32 - 1].  An engine that runs out of memory on a
    shorter array is outside this model. *)
Definition Array_from {A} (len : Z) (f : Z → A) : option (list A) :=
  if decide (maxArrayLength < len) then None else Some (f <$> seqZ 0 len).

(** [getPages] as JavaScript evaluates it on integer-valued arguments:
    [a - b + c] is [(a - b) + c], each operation rounded. *)
Definition getPages (currentPage totalPages maxVisiblePages : Z)
    : option (list Z) :=
  let totalPageNumbers := Math_min maxVisiblePages totalPages in
  let halfWay := Math_floor_half totalPageNumbers in
  let startPage :=
    Math_max
      (Math_min (sub currentPage halfWay)
                (add (sub totalPages totalPageNumbers) 1))
      1 in
  let endPage :=
    Math_min (sub (add startPage totalPageNumbers) 1) totalPages in
  Array_from (add (sub endPage startPage) 1) (λ index, add startPage index).

End Pagination64.

(** ** JavaScript values, JSON and promise outcomes *)

Module Js.
Import Binary64.

(** Data as [JSON.parse] delivers it and [JSON.stringify] prints it.
    Numbers are restricted to integers: a body with a fraction in it
    (an [id] of [2.5]) has no counterpart here. *)
Inductive Json : Type :=
| JNull
| JBool (b : bool)
| JNum (n : Z)
| JStr (s : string)
| JArr (items : list Json)
| JObj (props : list (string * Json)).

(** Own property lookup on the property list of an object. *)
Fixpoint assoc_get {A} (key : string) (props : list (string * A)) : option A :=
  match props with
  | [] => None
  | (k, v) :: rest => if decide (k = key) then Some v else assoc_get key rest
  end.

(** [Array.prototype.join] on an array of strings. *)
Definition Array_join (sep : string) (parts : list string) : string :=
  String.concat sep parts.

Definition newline : string := String (ascii_of_nat 10) "".
Definition dquote : string := String (ascii_of_nat 34) "".

Definition hex_digit (n : nat) : ascii :=
  ascii_of_nat (if decide (n < 10)%nat then 48 + n else 87 + n).

(** [QuoteJSONString]: the escapes [JSON.stringify] applies to one code
    unit (a backslash in a literal below is one backslash character). *)
Definition json_escape_char (c : ascii) : string :=
  let n := nat_of_ascii c in
  if decide (n = 34)%nat then "\" +:+ dquote
  else if decide (n = 92)%nat then "\\"
  else if decide (n = 8)%nat then "\b"
  else if decide (n = 9)%nat then "\t"
  else if decide (n = 10)%nat then "\n"
  else if decide (n = 12)%nat then "\f"
  else if decide (n = 13)%nat then "\r"
  else if decide (n < 32)%nat then
    "\u00" +:+ String (hex_digit (n / 16)) (String (hex_digit (n mod 16)) "")
  else String c "".

Fixpoint json_escape (s : string) : string :=
  match s with
  | EmptyString => ""
  | String c rest => json_escape_char c +:+ json_escape rest
  end.

Definition json_quote (s : string) : string :=
  dquote +:+ json_escape s +:+ dquote.

(** [JSON.stringify(value, replacer, 2)] with a replacer that leaves every
    JSON value as it is; [indent] is the indentation reached so far. *)
Fixpoint JSON_stringify_at (indent : string) (value : Json) : string :=
  let inner := indent +:+ "  " in
  let sep := "," +:+ newline +:+ inner in
  match value with
  | JNull => "null"
  | JBool b => if b then "true" else "false"
  | JNum n => Number_toString n
  | JStr s => json_quote s
  | JArr [] => "[]"
  | JArr items =>
      "[" +:+ newline +:+ inner
      +:+ Array_join sep (map (JSON_stringify_at inner) items)
      +:+ newline +:+ indent +:+ "]"
  | JObj [] => "{}"
  | JObj props =>
      "{" +:+ newline +:+ inner
      +:+ Array_join sep
            (map (λ kv, json_quote (fst kv) +:+ ": "
                        +:+ JSON_stringify_at inner (snd kv)) props)
      +:+ newline +:+ indent +:+ "}"
  end.

Definition JSON_stringify_2 (value : Json) : string :=
  JSON_stringify_at "" value.

(** The summed lengths of the strings of a list. *)
Fixpoint total_length (l : list string) : nat :=
  match l with
  | [] => 0
  | x :: rest => String.length x + total_length rest
  end.

End Js.

(** ** The schema library as this program uses it

    [zod] is an external dependency.  What follows models the part of it the
    sources call: issues, the error object with its [message] getter, the
    schema constructors [z.number()], [z.string()] with the [email()] and
    [date()] checks, [z.object], [z.array], [transform], [pick], and
    [safeParse] / [parseAsync].  The regular expressions behind [email()] and
    [date()] stay abstract. *)

Module Zod.
Import Js.

Inductive PathElem : Type :=
| PKey (key : string)
| PIndex (index : nat).

(** The two issue codes the schemas of this program can raise.  [message]
    is whatever the error map (or a schema's custom message) produced. *)
Inductive ZodIssue : Type :=
| invalid_type (expected received : string)
               (path : list PathElem) (message : string)
| invalid_string (validation : string)
                 (path : list PathElem) (message : string).

Definition issue_message (issue : ZodIssue) : string :=
  match issue with
  | invalid_type _ _ _ m => m
  | invalid_string _ _ m => m
  end.

Definition issue_path (issue : ZodIssue) : list PathElem :=
  match issue with
  | invalid_type _ _ p _ => p
  | invalid_string _ p _ => p
  end.

Definition path_to_Json (path : list PathElem) : Json :=
  JArr (map (λ e, match e with
                  | PKey k => JStr k
                  | PIndex i => JNum (Z.of_nat i)
                  end) path).

(** The issue as the object [makeIssue] builds, own properties in
    insertion order. *)
Definition issue_to_Json (issue : ZodIssue) : Json :=
  match issue with
  | invalid_type expected received path message =>
      JObj [("code", JStr "invalid_type");
            ("expected", JStr expected);
            ("received", JStr received);
            ("path", path_to_Json path);
            ("message", JStr message)]
  | invalid_string validation path message =>
      JObj [("validation", JStr validation);
            ("code", JStr "invalid_string");
            ("message", JStr message);
            ("path", path_to_Json path)]
  end.

(** [class ZodError extends Error { issues; get errors() { return
    this.issues } get message() { return JSON.stringify(this.issues,
    util.jsonStringifyReplacer, 2) } }]. *)
Record ZodError : Type := mkZodError { issues : list ZodIssue }.

Definition errors (e : ZodError) : list ZodIssue := issues e.

Definition ZodError_message (e : ZodError) : string :=
  JSON_stringify_2 (JArr (map issue_to_Json (issues e))).

(** Values a successful parse returns: JSON data in which [transform]
    may have put [Date] objects ([PDate s] is [new Date(s)]). *)
Inductive Parsed : Type :=
| PNum (n : Z)
| PStr (s : string)
| PDate (source : string)
| PArr (items : list Parsed)
| PObj (props : list (string * Parsed)).

Record StringCheck : Type :=
  { check_validation : string; check_test : string → bool }.

Inductive Schema : Type :=
| z_number
| z_string (checks : list StringCheck)
| z_object (shape : list (string * Schema))
| z_array (element : Schema)
| z_transform (inner : Schema) (transform : Parsed → Parsed).

(** [getParsedType]; [None] is [undefined] (a key the object lacks). *)
Definition getParsedType (input : option Json) : string :=
  match input with
  | None => "undefined"
  | Some JNull => "null"
  | Some (JBool _) => "boolean"
  | Some (JNum _) => "number"
  | Some (JStr _) => "string"
  | Some (JArr _) => "array"
  | Some (JObj _) => "object"
  end.

(** The default error map. *)
Definition invalid_type_message (expected received : string) : string :=
  if decide (received = "undefined") then "Required"
  else "Expected " +:+ expected +:+ ", received " +:+ received.

Definition invalid_string_message (validation : string) : string :=
  "Invalid " +:+ validation.

Definition type_issue (expected : string) (input : option Json)
    (path : list PathElem) : ZodIssue :=
  let received := getParsedType input in
  invalid_type expected received path (invalid_type_message expected received).

Definition run_checks (checks : list StringCheck) (path : list PathElem)
    (s : string) : list ZodIssue :=
  flat_map (λ c, if check_test c s then []
                 else [invalid_string (check_validation c) path
                         (invalid_string_message (check_validation c))])
           checks.

(** [ParseStatus.mergeObjectSync] and [ParseStatus.mergeArray]: the
    children have all been parsed; the issues are theirs, in order, and the
    merged value exists unless a child was aborted. *)
Fixpoint all_values {A} (values : list (option A)) : option (list A) :=
  match values with
  | [] => Some []
  | None :: _ => None
  | Some v :: rest => (λ vs, v :: vs) <$> all_values rest
  end.

Definition mergeResults {A} (results : list (list ZodIssue * option A))
    : list ZodIssue * option (list A) :=
  (flat_map fst results, all_values (snd <$> results)).

(** [schema._parse]: the issues added to the context, in the order they
    are added, and the value unless the parse was aborted.  Objects strip
    unknown keys and visit the keys of the shape in order; arrays visit
    their elements in order; a transform runs only on a valid value. *)
Fixpoint _parse (schema : Schema) (path : list PathElem)
    (input : option Json) : list ZodIssue * option Parsed :=
  match schema with
  | z_number =>
      match input with
      | Some (JNum n) => ([], Some (PNum n))
      | _ => ([type_issue "number" input path], None)
      end
  | z_string checks =>
      match input with
      | Some (JStr s) => (run_checks checks path s, Some (PStr s))
      | _ => ([type_issue "string" input path], None)
      end
  | z_object shape =>
      match input with
      | Some (JObj props) =>
          let pairs :=
            map (λ field : string * Schema,
                   let r := _parse field.2 (path ++ [PKey field.1])
                                   (assoc_get field.1 props) in
                   (r.1, (λ v, (field.1, v)) <$> r.2))
                shape in
          let merged := mergeResults pairs in
          (merged.1, PObj <$> merged.2)
      | _ => ([type_issue "object" input path], None)
      end
  | z_array element =>
      match input with
      | Some (JArr items) =>
          let results :=
            imap (λ index item,
                    _parse element (path ++ [PIndex index]) (Some item))
                 items in
          let merged := mergeResults results in
          (merged.1, PArr <$> merged.2)
      | _ => ([type_issue "array" input path], None)
      end
  | z_transform inner transform =>
      let r := _parse inner path input in
      match r.1 with
      | [] => (r.1, transform <$> r.2)
      | _ => r
      end
  end.

Inductive SafeParseResult : Type :=
| SafeParseSuccess (data : Parsed)
| SafeParseError (error : ZodError).

(** [schema.safeParse(data)]: success exactly when no issue was raised. *)
Definition safeParse (schema : Schema) (data : Json) : SafeParseResult :=
  let r := _parse schema [] (Some data) in
  match r.1, r.2 with
  | [], Some v => SafeParseSuccess v
  | _, _ => SafeParseError (mkZodError r.1)
  end.

(** [schema.pick(mask)]: the keys of the mask, in the mask's order, that
    are set and present in the shape. *)
Definition pick (schema : Schema) (mask : list (string * bool)) : Schema :=
  match schema with
  | z_object shape =>
      z_object
        (omap (λ kb : string * bool, if snd kb
                     then (λ sub, (fst kb, sub)) <$> assoc_get (fst kb) shape
                     else None) mask)
  | other => other
  end.

(** The tests behind [z.string().email()] and [z.string().date()]. *)
Class StringFormats : Type :=
  { emailRegex_test : string → bool; dateRegex_test : string → bool }.

Definition email `{StringFormats} : StringCheck :=
  {| check_validation := "email"; check_test := emailRegex_test |}.
Definition date `{StringFormats} : StringCheck :=
  {| check_validation := "date"; check_test := dateRegex_test |}.

End Zod.

(** ** Schemas of the program *)

Module Schemas.
Import Js Zod.

(** [(val) => new Date(val)] *)
Definition new_Date (val : Parsed) : Parsed :=
  match val with
  | PStr s => PDate s
  | other => other
  end.

(** customer.schema.ts *)
Definition CustomerSchema : Schema :=
  z_object
    [("id", z_number);
     ("name", z_string []);
     ("dob", z_string []);
     ("email", z_string []);
     ("contact", z_string []);
     ("created_at", z_transform (z_string []) new_Date);
     ("updated_at", z_transform (z_string []) new_Date)].

(** api-response.schema.ts *)
Definition ApiResponseSchema (schema : Schema) : Schema :=
  z_object [("data", schema)].

(** pages/listing.tsx *)
Definition CustomerListingSchema : Schema :=
  ApiResponseSchema
    (z_object
       [("records", z_array CustomerSchema);
        ("total_pages", z_number)]).

(** pages/manage-customer.tsx *)
Definition GetCustomerSchema : Schema := ApiResponseSchema CustomerSchema.

Definition UpdateCustomerSchema : Schema :=
  pick CustomerSchema
    [("name", true); ("email", true); ("contact", true); ("dob", true)].

(** pages/register.tsx *)
Definition RegisterCustomerSchema `{StringFormats} : Schema :=
  z_object
    [("name", z_string []);
     ("email", z_string [email]);
     ("contact", z_string []);
     ("dob", z_string [date])].

End Schemas.

(** ** Errors and the request operations *)

Module Net.
Import Binary64 Js Zod Schemas.

(** utils/net-error.ts: the [type] of a [NetError]. *)
Inductive NetErrorType : Type :=
| server_error
| network_error
| unknown_error
| validation_error.

Definition NetErrorType_to_string (t : NetErrorType) : string :=
  match t with
  | server_error => "server-error"
  | network_error => "network-error"
  | unknown_error => "unknown-error"
  | validation_error => "validation-error"
  end.

(** Values that can be thrown or be the reason of a rejected promise.
    [VError] is an [Error] instance that is neither a [NetError] nor a
    [ZodError] ([TypeError], [SyntaxError], ...).  [VNetError] holds the
    three parameter properties of [class NetError extends Error]; the
    declared type of [message] is [string], at run time it holds whatever
    the caller passed; [inner] is [undefined] when the argument is left
    out. *)
Inductive JsValue : Type :=
| VUndefined
| VNull
| VBool (b : bool)
| VNum (n : Z)
| VStr (s : string)
| VObject (props : list (string * JsValue))
| VError (name message : string)
| VZodError (error : ZodError)
| VNetError (type : NetErrorType) (message : JsValue) (inner : JsValue).

(** [new NetError(type, message, inner)] *)
Definition new_NetError (type : NetErrorType) (message : JsValue)
    (inner : JsValue) : JsValue :=
  VNetError type message inner.

Definition instanceof_NetError (v : JsValue) : bool :=
  match v with
  | VNetError _ _ _ => true
  | _ => false
  end.

Definition instanceof_ZodError (v : JsValue) : bool :=
  match v with
  | VZodError _ => true
  | _ => false
  end.

(** [NetError] and [ZodError] both extend [Error]. *)
Definition instanceof_Error (v : JsValue) : bool :=
  match v with
  | VError _ _ | VZodError _ | VNetError _ _ _ => true
  | _ => false
  end.

(** The outcome of a promise; also the completion of a handler body,
    where a [throw] rejects the promise the handler feeds. *)
Inductive Settled (A : Type) : Type :=
| Fulfilled (value : A)
| Rejected (reason : JsValue).
Arguments Fulfilled {A} value.
Arguments Rejected {A} reason.

(** [promise.then(onFulfilled)] and [promise.catch(onRejected)]. *)
Definition then_ {A B} (p : Settled A) (onFulfilled : A → Settled B)
    : Settled B :=
  match p with
  | Fulfilled value => onFulfilled value
  | Rejected reason => Rejected reason
  end.

Definition catch_ {A} (p : Settled A) (onRejected : JsValue → Settled A)
    : Settled A :=
  match p with
  | Fulfilled value => Fulfilled value
  | Rejected reason => onRejected reason
  end.

(** The expression [error.message].  On [undefined] and [null] the read
    throws a [TypeError] (worded as V8 does); primitives have no such
    property; a plain object yields its own property, if any. *)
Definition read_message (error : JsValue) : Settled JsValue :=
  match error with
  | VUndefined =>
      Rejected (VError "TypeError"
        "Cannot read properties of undefined (reading 'message')")
  | VNull =>
      Rejected (VError "TypeError"
        "Cannot read properties of null (reading 'message')")
  | VBool _ | VNum _ | VStr _ => Fulfilled VUndefined
  | VObject props => Fulfilled (default VUndefined (assoc_get "message" props))
  | VError _ message => Fulfilled (VStr message)
  | VZodError e => Fulfilled (VStr (ZodError_message e))
  | VNetError _ message _ => Fulfilled message
  end.

(** The rejection handler every request operation ends with:
[[
  .catch((error) => {
    if (error instanceof NetError) { throw error; }
    if (error instanceof ZodError) {
      throw new NetError("validation-error", error.message, error); }
    if (error instanceof Error) {
      throw new NetError("network-error", error.message, error); }
    throw new NetError("unknown-error", error.message, error);
  })
]] *)
Definition onRejected {A} (error : JsValue) : Settled A :=
  if instanceof_NetError error then Rejected error
  else if instanceof_ZodError error then
    then_ (read_message error) (λ message,
      Rejected (new_NetError validation_error message error))
  else if instanceof_Error error then
    then_ (read_message error) (λ message,
      Rejected (new_NetError network_error message error))
  else
    then_ (read_message error) (λ message,
      Rejected (new_NetError unknown_error message error)).

(** [schema.parseAsync(data)]: rejects with the [ZodError]. *)
Definition parseAsync (schema : Schema) (data : Json) : Settled Parsed :=
  match safeParse schema data with
  | SafeParseSuccess value => Fulfilled value
  | SafeParseError e => Rejected (VZodError e)
  end.

(** What the operations hand to [fetch].  [url] is the first argument of
    [new URL(url, import.meta.env.VITE_API_BASE_URL)] as the operation
    writes it; resolving it against the base (dot segments, [?] and [#]
    inside an [id]) is the URL parser's work and is not modelled.
    [searchParams] are the pairs appended to [url.searchParams], before
    their encoding.  The constant [Content-Type] header is left out;
    [body] is the value [JSON.stringify] is applied to. *)
Record Request : Type :=
  { method : string;
    url : string;
    searchParams : list (string * string);
    body : option Parsed }.

(** What the operations use of a [Response]: [ok], and the promises
    [text()] and [json()] return. *)
Record Response : Type :=
  { ok : bool;
    text : Settled string;
    json : Settled Json }.

Definition customerListingRequest (page limit : Z) : Request :=
  {| method := "GET"; url := "/api/customers";
     searchParams := [("page", Number_toString page);
                      ("limit", Number_toString limit)];
     body := None |}.

Definition customerRequest (id : string) : Request :=
  {| method := "GET"; url := "/api/customers/" +:+ id;
     searchParams := []; body := None |}.

Definition registerRequest (payload : Parsed) : Request :=
  {| method := "POST"; url := "/api/customers";
     searchParams := []; body := Some payload |}.

Definition updateRequest (id : string) (payload : Parsed) : Request :=
  {| method := "PUT"; url := "/api/customers/" +:+ id;
     searchParams := []; body := Some payload |}.

Definition deleteRequest (id : Z) : Request :=
  {| method := "DELETE"; url := "/api/customers/" +:+ Number_toString id;
     searchParams := []; body := None |}.

(** The branch shared by all five [then] handlers:
    [return response.text().then((message) => { throw new
    NetError("server-error", message); })]. *)
Definition throwServerError {A} (response : Response) : Settled A :=
  then_ (text response) (λ message,
    Rejected (new_NetError server_error (VStr message) VUndefined)).

Section Operations.
(** The transport: the outcome of [fetch] for each request. *)
Variable fetch : Request → Settled Response.

(** pages/listing.tsx *)
Definition fetchCustomerListing (page limit : Z) : Settled Parsed :=
  catch_
    (then_ (fetch (customerListingRequest page limit)) (λ response,
       if negb (ok response) then throwServerError response
       else then_ (json response) (λ data,
              parseAsync CustomerListingSchema data)))
    onRejected.

Definition deleteCustomer (id : Z) : Settled unit :=
  catch_
    (then_ (fetch (deleteRequest id)) (λ response,
       if negb (ok response) then throwServerError response
       else Fulfilled tt))
    onRejected.

(** pages/manage-customer.tsx *)
Definition fetchCustomer (id : string) : Settled Parsed :=
  catch_
    (then_ (fetch (customerRequest id)) (λ response,
       if negb (ok response) then throwServerError response
       else then_ (json response) (λ data,
              parseAsync GetCustomerSchema data)))
    onRejected.

Definition updateCustomer (id : string) (payload : Parsed)
    : Settled Parsed :=
  catch_
    (then_ (fetch (updateRequest id payload)) (λ response,
       if negb (ok response) then throwServerError response
       else then_ (json response) (λ data,
              parseAsync GetCustomerSchema data)))
    onRejected.

(** pages/register.tsx *)
Definition registerCustomer (payload : Parsed) : Settled Json :=
  catch_
    (then_ (fetch (registerRequest payload)) (λ response,
       if negb (ok response) then throwServerError response
       else json response))
    onRejected.
End Operations.

End Net.

(** ** The submit handlers of the two forms *)

Module Forms.
Import Js Zod Schemas Net.

(** A [FormData] entry value is a string or a [File]. *)
Inductive FormDataEntryValue : Type :=
| EntryString (s : string)
| EntryFile (name : string).

(** [value?.toString()] *)
Definition entry_toString (value : FormDataEntryValue) : string :=
  match value with
  | EntryString s => s
  | EntryFile _ => "[object File]"
  end.

(** [acc[key] = value] on the object literal [acc]: an own property is
    set, except for the key [__proto__], where the assignment runs the
    setter inherited from [Object.prototype]; given a string, the setter
    does nothing. *)
Definition assign_entry (acc : gmap string string) (key value : string)
    : gmap string string :=
  if decide (key = "__proto__") then acc else <[key := value]> acc.

(** [Array.from(formData.entries()).reduce((acc, [key, value]) => {
      acc[key] = value?.toString(); return acc; }, {})]: the map holds
    the own properties of the payload. *)
Definition collectPayload (entries : list (string * FormDataEntryValue))
    : gmap string string :=
  fold_left (λ acc kv, assign_entry acc kv.1 (entry_toString kv.2))
            entries ∅.

(** The payload object as the schema sees it. *)
Definition payload_to_Json (payload : gmap string string) : Json :=
  JObj (map_to_list (JStr <$> payload)).

(** What a submit handler does, in order. *)
Inductive Effect : Type :=
| PreventDefault
| Alert (text : string)
| FormReset
| Mutate (variables : Parsed).

(** pages/register.tsx, the [onSubmit] of the form:
[[
  e.preventDefault();
  const formData = new FormData(e.currentTarget);
  const payload = Array.from(formData.entries()).reduce(...);
  const result = RegisterCustomerSchema.safeParse(payload);
  if (!result.success) {
    const msg = result.error.errors.map((e) => e.message).join(", ");
    window.alert(`${msg}\nPlease correct the errors and try again.`);
    return;
  }
  e.currentTarget.reset();
  mutate(result.data, { onSuccess: ... });
]]
    The [onSuccess] option runs after the request and is left out. *)
Definition RegisterCustomer_onSubmit `{StringFormats}
    (entries : list (string * FormDataEntryValue)) : list Effect :=
  let payload := collectPayload entries in
  match safeParse RegisterCustomerSchema (payload_to_Json payload) with
  | SafeParseError error =>
      let msg := Array_join ", " (map issue_message (errors error)) in
      [PreventDefault;
       Alert (msg +:+ newline +:+ "Please correct the errors and try again.")]
  | SafeParseSuccess data => [PreventDefault; FormReset; Mutate data]
  end.

(** pages/manage-customer.tsx, the [onSubmit] of the form: the same steps
    with [UpdateCustomerSchema], and no [reset] before [mutate]. *)
Definition ManageCustomer_onSubmit
    (entries : list (string * FormDataEntryValue)) : list Effect :=
  let payload := collectPayload entries in
  match safeParse UpdateCustomerSchema (payload_to_Json payload) with
  | SafeParseError error =>
      let msg := Array_join ", " (map issue_message (errors error)) in
      [PreventDefault;
       Alert (msg +:+ newline +:+ "Please correct the errors and try again.")]
  | SafeParseSuccess data => [PreventDefault; Mutate data]
  end.

(** The texts shown to the user and the variables [mutate] is called
    with. *)
Definition alerts (effects : list Effect) : list string :=
  omap (λ e, match e with Alert text => Some text | _ => None end) effects.

Definition mutations (effects : list Effect) : list Parsed :=
  omap (λ e, match e with Mutate v => Some v | _ => None end) effects.

(** The requests the effects lead to: [mutate(variables)] runs the
    mutation function, [registerCustomer] or [updateCustomer(id, _)],
    which calls [fetch] once. *)
Definition register_requests (effects : list Effect) : list Request :=
  registerRequest <$> mutations effects.

Definition update_requests (id : string) (effects : list Effect)
    : list Request :=
  updateRequest id <$> mutations effects.

(** What [z.string()] reports for one key of a payload, whose values are
    all strings: nothing, or that the key is required. *)
Definition required_string (payload : gmap string string) (key : string)
    : list ZodIssue :=
  match payload !! key with
  | Some _ => []
  | None => [invalid_type "string" "undefined" [PKey key] "Required"]
  end.

End Forms.

(** ** The listing controller *)

Module Listing.
Import Pagination Js Zod Schemas Net.

(** The component is translated from pages/listing.tsx.  [useQuery],
    [useMutation] and [invalidateQueries] belong to the data-fetching
    library, which is not part of the repository: [QueryState], the
    [queries] and [fetching] fields, [useQuery], [invalidateQueries],
    [settleQuery] and [settleMutation] are a model of the library with
    the options the component leaves at their defaults (a query is stale
    at once, so every new subscription fetches; a fetch in flight is
    shared). *)

(** Library model: the state of one query, [status] with what the query
    holds.  A query whose refetch failed keeps the data it had. *)
Inductive QueryState : Type :=
| QueryPending
| QueryError (error : JsValue) (data : option Parsed)
| QuerySuccess (data : Parsed).

(** [page] and [limit] are the component's two [useState] cells.  Library
    model: the query cache is a map from query keys
    [["customer-listing", page, limit]] to query states; [fetching] holds
    the keys with a fetch in flight. *)
Record State : Type :=
  { page : Z;
    limit : Z;
    queries : gmap (Z * Z) QueryState;
    fetching : gset (Z * Z) }.

(** [queryKey: ["customer-listing", page, limit]] *)
Definition queryKey (s : State) : Z * Z := (page s, limit s).

(** [queryFn: ({ queryKey: [_, p, l] }) => fetchCustomerListing(p, l)] *)
Definition queryFn (fetch : Request → Settled Response) (key : Z * Z)
    : Settled Parsed :=
  fetchCustomerListing fetch key.1 key.2.

(** Library model.  [useQuery] on the first render and on a render with
    a new key: the observer subscribes to the current key and a fetch for
    the key starts.  A key without a query gets a pending one; a query
    that failed and holds no data goes back to pending; a query with data
    keeps its status while it is fetched again. *)
Definition useQuery (s : State) : State :=
  let key := queryKey s in
  {| page := page s; limit := limit s;
     queries := match queries s !! key with
                | None | Some (QueryError _ None) =>
                    <[key := QueryPending]> (queries s)
                | Some _ => queries s
                end;
     fetching := {[key]} ∪ fetching s |}.

(** [useState(1)], [useState(5)] and the first render. *)
Definition initial : State :=
  useQuery {| page := 1; limit := 5; queries := ∅; fetching := ∅ |}.

Definition setPage (p : Z) (s : State) : State :=
  {| page := p; limit := limit s;
     queries := queries s; fetching := fetching s |}.

(** Library model.  [qc.invalidateQueries({ queryKey })]: the query is
    fetched again. *)
Definition invalidateQueries (key : Z * Z) (s : State) : State :=
  {| page := page s; limit := limit s;
     queries := queries s; fetching := {[key]} ∪ fetching s |}.

(** The data a query holds. *)
Definition queryData (q : option QueryState) : option Parsed :=
  match q with
  | Some (QuerySuccess data) => Some data
  | Some (QueryError _ data) => data
  | Some QueryPending | None => None
  end.

Definition settledState (outcome : Settled Parsed)
    (previous : option QueryState) : QueryState :=
  match outcome with
  | Fulfilled data => QuerySuccess data
  | Rejected error => QueryError error (queryData previous)
  end.

(** Library model.  The fetch for [key] settles with [outcome]: the
    result goes to the query of that key.  The library calls the query
    function again after a failure (three more times by default) and
    settles the fetch with the outcome of the last call it makes; that
    call's outcome is [outcome]. *)
Definition settleQuery (key : Z * Z) (outcome : Settled Parsed) (s : State)
    : State :=
  if decide (key ∈ fetching s) then
    {| page := page s; limit := limit s;
       queries := <[key := settledState outcome (queries s !! key)]>
                    (queries s);
       fetching := fetching s ∖ {[key]} |}
  else s.

(** The [onSettled] callback of the delete mutation:
[[
  onSettled: () => {
    setPage(1);
    qc.invalidateQueries({ queryKey: ["customer-listing", 1, limit] });
  }
]] *)
Definition onSettled (s : State) : State :=
  invalidateQueries (1, limit s) (setPage 1 s).

(** Library model.  [useMutation]: when the mutation function's promise
    settles, either way, [onSettled] runs (no [onSuccess] or [onError] is
    given). *)
Definition settleMutation (outcome : Settled unit) (s : State) : State :=
  match outcome with
  | Fulfilled _ => onSettled s
  | Rejected _ => onSettled s
  end.

Inductive Event : Type :=
| PageChange (p : Z)
| QuerySettled (key : Z * Z) (fetch : Request → Settled Response)
| DeleteSettled (id : Z) (fetch : Request → Settled Response).

(** One event, followed by the render it causes.  [PageChange p] is
    [onPageChange(p)], that is [setPage(p)]; setting the page it already
    has changes nothing.  [QuerySettled key fetch]: the fetch of the query
    [key] settles, the transport answering the last call of the query
    function as [fetch].  [DeleteSettled id fetch]: the promise of
    [deleteCustomer(id)] settles. *)
Definition step (s : State) (e : Event) : State :=
  match e with
  | PageChange p => if decide (p = page s) then s else useQuery (setPage p s)
  | QuerySettled key fetch => settleQuery key (queryFn fetch key) s
  | DeleteSettled id fetch =>
      useQuery (settleMutation (deleteCustomer fetch id) s)
  end.

Definition run (s : State) (events : list Event) : State :=
  fold_left step events s.

(** [Number(queryData.data.data.total_pages)] on validated data. *)
Definition total_pages (data : Parsed) : Z :=
  match data with
  | PObj props =>
      match assoc_get "data" props with
      | Some (PObj inner) =>
          match assoc_get "total_pages" inner with
          | Some (PNum n) => n
          | _ => 0
          end
      | _ => 0
      end
  | _ => 0
  end.

(** What the component shows: [Error: {error.type}], [Loading...], or the
    table of the data with the page buttons of [Pagination], the page
    numbers read over the exact integers. *)
Inductive View : Type :=
| ViewError (type : option NetErrorType)
| ViewLoading
| ViewTable (data : Parsed) (currentPage : Z) (pageNumbers : list Z).

Definition render (s : State) : View :=
  match queries s !! queryKey s with
  | Some (QueryError error _) =>
      ViewError (match error with
                 | VNetError type _ _ => Some type
                 | _ => None
                 end)
  | Some QueryPending | None => ViewLoading
  | Some (QuerySuccess data) =>
      ViewTable data (page s)
        (getPages (page s) (total_pages data) defaultMaxVisiblePages)
  end.

End Listing.

(** ** Sample inputs *)

Module Scenarios.
Import Js Zod Schemas Net Forms.

(** The response of the spec's scenario: status 500, body [boom]. *)
Definition response_500_boom : Response :=
  {| ok := false; text := Fulfilled "boom";
     json := Rejected (VError "SyntaxError" "Unexpected token") |}.

(** The validation failure of the spec's scenario: two issues whose
    messages are [email invalid] and [name required]. *)
Definition two_field_errors : ZodError :=
  mkZodError
    [invalid_string "email" [PKey "email"] "email invalid";
     invalid_type "string" "undefined" [PKey "name"] "name required"].

(** A listing response whose [total_pages] is a string. *)
Definition listing_with_text_total : Json :=
  JObj [("data", JObj [("records", JArr []); ("total_pages", JStr "3")])].

(** A manage form submitted without its [email] and [dob] fields. *)
Definition entries_without_email_dob : list (string * FormDataEntryValue) :=
  [("name", EntryString "jane"); ("contact", EntryString "+60198765432")].

(** The two format tests, cut down to the strings the register scenario
    uses: the address and the date below are well formed, the empty string
    is neither an e-mail address nor a date. *)
Definition scenario_formats : StringFormats :=
  {| emailRegex_test := λ s, bool_decide (s = "jane.smith@mail.net");
     dateRegex_test := λ s, bool_decide (s = "2024-01-10") |}.

(** A register form submitted with the date of birth left empty. *)
Definition entries_with_empty_dob : list (string * FormDataEntryValue) :=
  [("name", EntryString "jane");
   ("email", EntryString "jane.smith@mail.net");
   ("contact", EntryString "+60198765432");
   ("dob", EntryString "")].

(** The same form filled in completely. *)
Definition entries_complete : list (string * FormDataEntryValue) :=
  [("name", EntryString "jane");
   ("email", EntryString "jane.smith@mail.net");
   ("contact", EntryString "+60198765432");
   ("dob", EntryString "2024-01-10")].

(** A well-formed listing response with no records. *)
Definition listing_response (total : Z) : Response :=
  {| ok := true; text := Fulfilled "";
     json := Fulfilled
       (JObj [("data", JObj [("records", JArr []);
                             ("total_pages", JNum total)])]) |}.

End Scenarios.

(** ** The pagination component *)

Module PaginationView.
Import Pagination.

(** What the [Pagination] component renders, left to right: buttons, each
    with its [disabled] flag, whether its label is bold, and the page its
    [onClick] passes to [onPageChange]; and the [...] spacers. *)
Inductive Label : Type :=
| LPrevious
| LNumber (number : Z)
| LNext.

Inductive Item : Type :=
| Button (label : Label) (disabled bold : bool) (onClick : Z)
| Dots.

(** [pageNumbers[0] > 1 && ...] and [pageNumbers[pageNumbers.length - 1] <
    totalPages && ...]: on an empty array the element is [undefined] and
    the comparison is false. *)
Definition Pagination (currentPage totalPages : Z) : list Item :=
  let maxVisiblePages := 5 in
  let pageNumbers := getPages currentPage totalPages maxVisiblePages in
  [Button LPrevious (bool_decide (currentPage = 1)) false (currentPage - 1)]
  ++ match head pageNumbers with
     | Some first =>
         if bool_decide (1 < first)
         then [Button (LNumber 1) false false 1; Dots]
         else []
     | None => []
     end
  ++ map (λ number,
            Button (LNumber number) false
                   (bool_decide (number = currentPage)) number)
         pageNumbers
  ++ match last pageNumbers with
     | Some final =>
         if bool_decide (final < totalPages)
         then [Dots; Button (LNumber totalPages) false false totalPages]
         else []
     | None => []
     end
  ++ [Button LNext (bool_decide (currentPage = totalPages)) false
             (currentPage + 1)].


(** The numbers on the numbered buttons, left to right. *)
Definition numbers (items : list Item) : list Z :=
  omap (λ item, match item with
                | Button (LNumber n) _ _ _ => Some n
                | _ => None
                end) items.

(** The labels shown in bold. *)
Definition boldLabels (items : list Item) : list Label :=
  omap (λ item, match item with
                | Button label _ true _ => Some label
                | _ => None
                end) items.

End PaginationView.

(** ** The pagination component in binary64 *)

Module PaginationView64.
Import Binary64 PaginationView.

(** The component with [getPages], [currentPage - 1] and [currentPage + 1]
    as JavaScript evaluates them; [None] when [getPages] throws. *)
Definition Pagination (currentPage totalPages : Z) : option (list Item) :=
  let maxVisiblePages := 5 in
  pageNumbers ← Pagination64.getPages currentPage totalPages maxVisiblePages;
  Some
    ([Button LPrevious (bool_decide (currentPage = 1)) false
             (sub currentPage 1)]
     ++ match head pageNumbers with
        | Some first =>
            if bool_decide (1 < first)
            then [Button (LNumber 1) false false 1; Dots]
            else []
        | None => []
        end
     ++ map (λ number,
               Button (LNumber number) false
                      (bool_decide (number = currentPage)) number)
            pageNumbers
     ++ match last pageNumbers with
        | Some final =>
            if bool_decide (final < totalPages)
            then [Dots; Button (LNumber totalPages) false false totalPages]
            else []
        | None => []
        end
     ++ [Button LNext (bool_decide (currentPage = totalPages)) false
                (add currentPage 1)]).

End PaginationView64.

(** ** The manage page: the mode toggle and the update mutation *)

Module Manage.
Import Js Zod Schemas Net.

(** [useToggle], the [toggle] function of the second version of the page:
[[
  const toggle = (value?: TPositive | TNegative) => {
    if (value != null) { setState(value); }
    else { setState(state === p.positive ? p.negative : p.positive); }
  };
]]
    [None] is a call without argument; the first version of the page has
    that case only. *)
Definition toggle {T} `{EqDecision T} (positive negative : T)
    (value : option T) (state : T) : T :=
  match value with
  | Some v => v
  | None => if decide (state = positive) then negative else positive
  end.

(** The own enumerable properties an object spread copies: those of an
    object; the indexed elements of an array and the characters of a
    string; none for a number or a [Date]. *)
Fixpoint string_chars (index : nat) (s : string) : list (string * Parsed) :=
  match s with
  | EmptyString => []
  | String c rest =>
      (pretty index, PStr (String c "")) :: string_chars (S index) rest
  end.

Definition own_props (value : Parsed) : list (string * Parsed) :=
  match value with
  | PObj props => props
  | PArr items => imap (λ index item, (pretty index, item)) items
  | PStr s => string_chars 0 s
  | PNum _ | PDate _ => []
  end.

(** Writing one property: an existing key keeps its place, a new one goes
    last. *)
Fixpoint set_prop (key : string) (value : Parsed)
    (props : list (string * Parsed)) : list (string * Parsed) :=
  match props with
  | [] => [(key, value)]
  | (k, v) :: rest =>
      if decide (k = key) then (k, value) :: rest
      else (k, v) :: set_prop key value rest
  end.

(** [{ ...base, ...over }] on property lists. *)
Definition assign (base over : list (string * Parsed))
    : list (string * Parsed) :=
  fold_left (λ acc kv, set_prop kv.1 kv.2 acc) over base.

(** [old.data], then spread: a missing property spreads to nothing. *)
Definition data_props (old : Parsed) : list (string * Parsed) :=
  match old with
  | PObj props =>
      match assoc_get "data" props with
      | Some data => own_props data
      | None => []
      end
  | _ => []
  end.

(** [{ ...old, data: { ...old.data, ...param } }] *)
Definition optimistic (old param : Parsed) : Parsed :=
  PObj (assign (own_props old)
               [("data", PObj (assign (data_props old) (own_props param)))]).

(** Library model (the data-fetching library is not part of the
    repository).  The query [["customer", id]] of the query cache: its
    data, and whether it is marked invalid (to be fetched again). *)
Record CustomerQuery : Type :=
  { cached : option Parsed; isInvalidated : bool }.

(** Library model.  [qc.setQueryData(key, value)] and
    [qc.setQueryData(key, updater)]: an updater that returns [undefined]
    changes nothing; new data clears the invalid mark. *)
Definition setQueryData (value : Parsed) (q : CustomerQuery) : CustomerQuery :=
  {| cached := Some value; isInvalidated := false |}.

Definition setQueryDataWith (updater : option Parsed → option Parsed)
    (q : CustomerQuery) : CustomerQuery :=
  match updater (cached q) with
  | Some value => setQueryData value q
  | None => q
  end.

(** Library model.  [qc.invalidateQueries({ queryKey: ["customer", id] })] *)
Definition invalidateQuery (q : CustomerQuery) : CustomerQuery :=
  {| cached := cached q; isInvalidated := true |}.

(** [onMutate: (param) => { qc.setQueryData(["customer", id], (old) => {
      if (old == null) { return old; }
      return { ...old, data: { ...old.data, ...param } }; }); }] *)
Definition onMutate (param : Parsed) (q : CustomerQuery) : CustomerQuery :=
  setQueryDataWith
    (λ old, match old with
            | None => None
            | Some o => Some (optimistic o param)
            end) q.

(** [error != null] *)
Definition nullish (v : JsValue) : bool :=
  match v with
  | VUndefined | VNull => true
  | _ => false
  end.

(** [onSettled: (resp, error) => {
      if (resp != null) { qc.setQueryData(["customer", id], resp); }
      if (error != null) { qc.invalidateQueries({ queryKey: ["customer", id] }); } }]
    called with [(data, null)] when the mutation fulfilled and with
    [(undefined, error)] when it rejected. *)
Definition onSettled (outcome : Settled Parsed) (q : CustomerQuery)
    : CustomerQuery :=
  match outcome with
  | Fulfilled resp => setQueryData resp q
  | Rejected error => if nullish error then q else invalidateQuery q
  end.

(** One update: [mutate(param)] runs [onMutate], then the mutation function
    [updateCustomer(id, param)], then [onSettled]. *)
Definition update (fetch : Request → Settled Response) (id : string)
    (param : Parsed) (q : CustomerQuery) : CustomerQuery :=
  onSettled (updateCustomer fetch id param) (onMutate param q).

End Manage.

(** ** What the schemas accept, spelled out *)

Module Shapes.
Import Js Zod Schemas Forms.

(** A customer as the backend sends it, and the value [CustomerSchema]
    returns for it: the seven fields, the two timestamps as [Date]s. *)
Definition customer_record (data : Json) (value : Parsed) : Prop :=
  ∃ props id name dob email contact created_at updated_at,
    data = JObj props
    ∧ assoc_get "id" props = Some (JNum id)
    ∧ assoc_get "name" props = Some (JStr name)
    ∧ assoc_get "dob" props = Some (JStr dob)
    ∧ assoc_get "email" props = Some (JStr email)
    ∧ assoc_get "contact" props = Some (JStr contact)
    ∧ assoc_get "created_at" props = Some (JStr created_at)
    ∧ assoc_get "updated_at" props = Some (JStr updated_at)
    ∧ value = PObj [("id", PNum id); ("name", PStr name); ("dob", PStr dob);
                    ("email", PStr email); ("contact", PStr contact);
                    ("created_at", PDate created_at);
                    ("updated_at", PDate updated_at)].

(** [{ data: customer }] *)
Definition customer_body (data : Json) (value : Parsed) : Prop :=
  ∃ props customer record,
    data = JObj props
    ∧ assoc_get "data" props = Some customer
    ∧ customer_record customer record
    ∧ value = PObj [("data", record)].

(** [{ data: { records: customer[], total_pages: number } }] *)
Definition listing_body (data : Json) (value : Parsed) : Prop :=
  ∃ props inner items total rows,
    data = JObj props
    ∧ assoc_get "data" props = Some (JObj inner)
    ∧ assoc_get "records" inner = Some (JArr items)
    ∧ assoc_get "total_pages" inner = Some (JNum total)
    ∧ Forall2 customer_record items rows
    ∧ value = PObj [("data", PObj [("records", PArr rows);
                                   ("total_pages", PNum total)])].

(** What [z.string()] with one format check reports for one key of a
    payload of strings. *)
Definition checked_string (test : string → bool) (validation : string)
    (payload : gmap string string) (key : string) : list ZodIssue :=
  match payload !! key with
  | None => [invalid_type "string" "undefined" [PKey key] "Required"]
  | Some s =>
      if test s then []
      else [invalid_string validation [PKey key] ("Invalid " +:+ validation)]
  end.

(** The issues of the register form, field by field. *)
Definition register_issues `{StringFormats} (payload : gmap string string)
    : list ZodIssue :=
  required_string payload "name"
  ++ checked_string emailRegex_test "email" payload "email"
  ++ required_string payload "contact"
  ++ checked_string dateRegex_test "date" payload "dob".

(** The four fields both forms send, read off a payload. *)
Definition form_data (payload : gmap string string) : Parsed :=
  PObj [("name", PStr (default "" (payload !! "name")));
        ("email", PStr (default "" (payload !! "email")));
        ("contact", PStr (default "" (payload !! "contact")));
        ("dob", PStr (default "" (payload !! "dob")))].

(** The value of the last entry of a form with the given name. *)
Definition last_entry (key : string)
    (entries : list (string * FormDataEntryValue)) : option string :=
  last (omap (λ kv : string * FormDataEntryValue,
                if decide (kv.1 = key) then Some (entry_toString kv.2)
                else None) entries).

End Shapes.

(** * Properties *)

Import Pagination Js Zod Schemas Net Scenarios.

Example getPages_1_10 : getPages 1 10 5 = [1; 2; 3; 4; 5].
Proof. reflexivity. Qed.
Example getPages_10_10 : getPages 10 10 5 = [6; 7; 8; 9; 10].
Proof. reflexivity. Qed.
Example getPages_5_10 : getPages 5 10 5 = [3; 4; 5; 6; 7].
Proof. reflexivity. Qed.
Example getPages_3_2 : getPages 3 2 5 = [1; 2].
Proof. reflexivity. Qed.
Example getPages_0_pages : getPages 7 0 5 = [].
Proof. reflexivity. Qed.

Lemma getPages_unfold c t m :
  getPages c t m = seqZ (startPage c t m) (endPage c t m - startPage c t m + 1).
Proof.
  unfold getPages, Array_from, endPage, startPage.
  cbv zeta.
  set (s := Math_max _ 1). set (n := Math_min _ t - s + 1).
  unfold seqZ. rewrite <- !list_fmap_compose.
  apply list_fmap_ext. intros i x _. simpl. lia.
Qed.

(** ** The page window *)

Section PageWindow.
Variables currentPage totalPages maxVisiblePages : Z.

Local Abbreviation pages := (getPages currentPage totalPages maxVisiblePages).
Local Abbreviation first := (startPage currentPage totalPages maxVisiblePages).
Local Abbreviation final := (endPage currentPage totalPages maxVisiblePages).

Lemma startPage_lower : 1 ≤ first.
Proof. unfold startPage, Math_max. lia. Qed.

Lemma endPage_upper : final ≤ totalPages.
Proof. unfold endPage, Math_min. lia. Qed.

(** With at least one page and room for at least one button the window
    is never cut short: it ends [min(maxVisiblePages, totalPages) - 1]
    after its start. *)
Lemma endPage_exact :
  0 < totalPages → 1 ≤ maxVisiblePages →
  final = first + Z.min maxVisiblePages totalPages - 1.
Proof.
  intros Ht Hm. unfold endPage, startPage, Math_min, Math_max, Math_floor_half.
  lia.
Qed.

Lemma getPages_elem p : p ∈ pages ↔ first ≤ p ≤ final.
Proof. rewrite getPages_unfold, elem_of_seqZ. lia. Qed.

Lemma getPages_length : length pages = Z.to_nat (final - first + 1).
Proof. rewrite getPages_unfold. apply length_seqZ. Qed.

Lemma getPages_lookup (i : nat) p :
  pages !! i = Some p ↔ p = first + Z.of_nat i ∧ first + Z.of_nat i ≤ final.
Proof. rewrite getPages_unfold, lookup_seqZ. lia. Qed.
End PageWindow.



(** Over the exact integers: for [totalPages > 0], [maxVisiblePages ≥ 1]
    and a current page in [[1, totalPages]], the window has exactly
    [min(maxVisiblePages, totalPages)] entries and is the ascending run of
    consecutive integers from its first entry to its last. *)
Lemma getPages_exact_length_contiguous (currentPage totalPages maxVisiblePages : Z) :
  0 < totalPages → 1 ≤ maxVisiblePages → 1 ≤ currentPage ≤ totalPages →
  let pages := getPages currentPage totalPages maxVisiblePages in
  Z.of_nat (length pages) = Z.min maxVisiblePages totalPages
  ∧ ∃ first final,
      head pages = Some first ∧ last pages = Some final
      ∧ pages = seqZ first (final - first + 1)
      ∧ ∀ (i : nat) p q, pages !! i = Some p → pages !! S i = Some q → q = p + 1.
Proof.
  intros Ht Hm Hc pages.
  pose proof (endPage_exact currentPage totalPages maxVisiblePages Ht Hm) as He.
  set (a := startPage currentPage totalPages maxVisiblePages) in *.
  set (b := endPage currentPage totalPages maxVisiblePages) in *.
  assert (Hlen : length pages = Z.to_nat (b - a + 1)) by apply getPages_length.
  split; [lia|].
  exists a, b. repeat split.
  - rewrite head_lookup. apply getPages_lookup. fold a b. lia.
  - rewrite last_lookup, Hlen. apply getPages_lookup. fold a b. lia.
  - apply getPages_unfold.
  - intros i p q Hp Hq.
    apply getPages_lookup in Hp, Hq. fold a b in Hp, Hq. lia.
Qed.

(** Over the exact integers: when [totalPages ≥ maxVisiblePages ≥ 1] and
    the current page is in [[1, totalPages]], the window contains the
    current page. *)
Lemma getPages_exact_contains_current (currentPage totalPages maxVisiblePages : Z) :
  1 ≤ maxVisiblePages → maxVisiblePages ≤ totalPages →
  1 ≤ currentPage ≤ totalPages →
  currentPage ∈ getPages currentPage totalPages maxVisiblePages.
Proof.
  intros Hm Ht Hc. apply getPages_elem.
  rewrite endPage_exact by lia.
  unfold startPage, Math_min, Math_max, Math_floor_half.
  replace (maxVisiblePages `min` totalPages) with maxVisiblePages by lia.
  assert (0 ≤ maxVisiblePages `div` 2) by (apply Z.div_pos; lia).
  assert (2 * (maxVisiblePages `div` 2) ≤ maxVisiblePages)
    by (apply Z.mul_div_le; lia).
  lia.
Qed.

(** ** The page window in binary64 *)

Import Binary64.

(** Integers up to [2^53] in magnitude are binary64 values. *)
Lemma round53_exact z : - 2 ^ 53 ≤ z ≤ 2 ^ 53 → round53 z = z.
Proof.
  intros Hz. unfold round53.
  destruct (decide (Z.abs z < 2 ^ 53)) as [|Hbig]; [done|].
  assert (Hcases : z = 2 ^ 53 ∨ z = - 2 ^ 53) by lia.
  destruct Hcases as [-> | ->]; reflexivity.
Qed.

(** Rounding keeps the sign and does not bring a large integer below
    [2^53] in magnitude. *)
Lemma round53_magnitude z :
  2 ^ 53 ≤ Z.abs z → 2 ^ 53 ≤ Z.abs (round53 z) ∧ Z.sgn (round53 z) = Z.sgn z.
Proof.
  intros Hz. unfold round53.
  rewrite decide_False by lia.
  set (a := Z.abs z) in *.
  set (e := Z.log2 a - 52).
  assert (Ha : 0 < a) by lia.
  pose proof (Z.log2_spec a Ha) as [Hlo _].
  assert (He : 1 ≤ e).
  { unfold e. assert (53 ≤ Z.log2 a); [|lia].
    apply Z.log2_le_pow2; lia. }
  assert (Hpow : 2 ^ Z.log2 a = 2 ^ 52 * 2 ^ e).
  { unfold e. rewrite <- Z.pow_add_r by lia. f_equal. lia. }
  assert (H2e : 2 ≤ 2 ^ e).
  { change 2 with (2 ^ 1) at 1. apply Z.pow_le_mono_r; lia. }
  assert (Hq : 2 ^ 52 ≤ a `div` 2 ^ e).
  { apply Z.div_le_lower_bound; lia. }
  set (q := a `div` 2 ^ e) in *.
  set (q' := if decide (_ < _) then q else _).
  assert (Hq' : q ≤ q').
  { unfold q'. repeat case_decide; try lia. destruct (Z.even q); lia. }
  assert (Hbig : 2 ^ 53 ≤ q' * 2 ^ e).
  { change (2 ^ 53) with (2 ^ 52 * 2). nia. }
  destruct (Z.sgn_spec z) as [[? ->]|[[? ->]|[? ->]]]; [|lia|].
  - rewrite Z.mul_1_l. split; [lia|]. apply Z.sgn_pos. lia.
  - split; [lia|]. apply Z.sgn_neg. lia.
Qed.

Lemma round53_above z : 2 ^ 53 ≤ z → 2 ^ 53 ≤ round53 z.
Proof.
  intros Hz. destruct (round53_magnitude z) as [Ha Hs]; [lia|].
  rewrite (Z.sgn_pos z) in Hs by lia. apply Z.sgn_pos_iff in Hs. lia.
Qed.

Lemma round53_below z : z ≤ - 2 ^ 53 → round53 z ≤ - 2 ^ 53.
Proof.
  intros Hz. destruct (round53_magnitude z) as [Ha Hs]; [lia|].
  rewrite (Z.sgn_neg z) in Hs by lia. apply Z.sgn_neg_iff in Hs. lia.
Qed.

Example round53_ties_to_even :
  round53 (2 ^ 53 + 1) = 2 ^ 53 ∧ round53 (2 ^ 53 + 3) = 2 ^ 53 + 4
  ∧ round53 (2 ^ 53 + 2) = 2 ^ 53 + 2 ∧ round53 (- 2 ^ 53 - 1) = - 2 ^ 53.
Proof. split_and!; reflexivity. Qed.

Example Number_toString_samples :
  Number_toString 5 = "5" ∧ Number_toString (-12) = "-12"
  ∧ Number_toString (2 ^ 53) = "9007199254740992"
  ∧ Number_toString (2 ^ 60) = "1152921504606847000"
  ∧ Number_toString (10 ^ 21) = "1e+21"
  ∧ Number_toString (2 ^ 70) = "1.1805916207174113e+21".
Proof. split_and!; vm_compute; reflexivity. Qed.

(** With [totalPages] up to [2^53 - 1] the start of the window is the same
    in binary64 as over the integers, whatever the current page. *)
Lemma startPage_binary64 c t m :
  0 ≤ t ≤ MAX_SAFE_INTEGER → 0 ≤ m →
  Math_max (Math_min (sub c (Math_floor_half (Math_min m t)))
                     (add (sub t (Math_min m t)) 1)) 1
  = startPage c t m.
Proof.
  unfold MAX_SAFE_INTEGER. intros Ht Hm.
  unfold startPage, add, sub, Math_max, Math_min, Math_floor_half.
  set (n := m `min` t). assert (Hn : 0 ≤ n ≤ t) by lia.
  assert (Hh : 0 ≤ n `div` 2) by (apply Z.div_pos; lia).
  rewrite (round53_exact (t - n)) by lia.
  rewrite (round53_exact (t - n + 1)) by lia.
  destruct (decide (2 ^ 53 ≤ c - n `div` 2)) as [Hbig|Hnbig].
  { pose proof (round53_above _ Hbig). lia. }
  destruct (decide (c - n `div` 2 ≤ - 2 ^ 53)) as [Hsmall|Hnsmall].
  { pose proof (round53_below _ Hsmall). lia. }
  rewrite round53_exact by lia. done.
Qed.

(** With [totalPages] up to [2^53 - 1] and a window that fits an array,
    [getPages] in binary64 returns what the exact arithmetic gives. *)
Lemma getPages_binary64_exact c t m :
  0 ≤ t ≤ MAX_SAFE_INTEGER → 0 ≤ m →
  Z.min m t ≤ Pagination64.maxArrayLength →
  Pagination64.getPages c t m = Some (getPages c t m).
Proof.
  intros Ht Hm Hlen. unfold Pagination64.getPages. cbv zeta.
  rewrite startPage_binary64 by done.
  rewrite getPages_unfold.
  pose proof (startPage_lower c t m) as Hs1.
  assert (Hs2 : startPage c t m ≤ t - Z.min m t + 1)
    by (unfold startPage, Math_max, Math_min; lia).
  set (s := startPage c t m) in *.
  unfold endPage. fold s.
  unfold MAX_SAFE_INTEGER in Ht.
  unfold add, sub, Math_min in *. set (n := m `min` t) in *.
  assert (Hn : 0 ≤ n ≤ t) by lia.
  rewrite (round53_exact (s + n)) by lia.
  rewrite (round53_exact (s + n - 1)) by lia.
  set (e := (s + n - 1) `min` t).
  rewrite (round53_exact (e - s)) by lia.
  rewrite (round53_exact (e - s + 1)) by lia.
  unfold Pagination64.Array_from.
  rewrite decide_False by lia.
  f_equal. unfold seqZ. rewrite <- list_fmap_compose.
  apply list_fmap_ext. intros i x Hx. simpl.
  apply lookup_seq in Hx as [-> Hi].
  rewrite round53_exact by lia. lia.
Qed.

(** The bounds of the window hold of the binary64 function as well, for
    [totalPages] up to [2^53 - 1]. *)
Lemma getPages_binary64_within_bounds (currentPage totalPages : Z) :
  0 ≤ totalPages ≤ MAX_SAFE_INTEGER →
  ∃ pages,
    Pagination64.getPages currentPage totalPages defaultMaxVisiblePages
    = Some pages
    ∧ Forall (λ p, 1 ≤ p ≤ totalPages) pages
    ∧ (pages = [] ↔ totalPages = 0).
Proof.
  intros Ht. eexists. split.
  { apply getPages_binary64_exact; [done|done|].
    unfold defaultMaxVisiblePages, Pagination64.maxArrayLength. lia. }
  pose proof (startPage_lower currentPage totalPages defaultMaxVisiblePages).
  pose proof (endPage_upper currentPage totalPages defaultMaxVisiblePages).
  split.
  - apply Forall_forall. intros p Hp%getPages_elem. lia.
  - rewrite <- length_zero_iff_nil, getPages_length.
    unfold endPage, startPage, Math_min, Math_max, Math_floor_half,
      defaultMaxVisiblePages in *.
    lia.
Qed.

(** C2, as the code has it.  For [0 < totalPages ≤ 2^53 - 1],
    [maxVisiblePages ≥ 1] with [min(maxVisiblePages, totalPages)] at most
    the greatest array length [2^32 - 1], and a current page in
    [[1, totalPages]], [getPages] returns a window of exactly
    [min(maxVisiblePages, totalPages)] entries, the ascending run of
    consecutive integers from its first entry to its last. *)
Theorem getPages_length_contiguous (currentPage totalPages maxVisiblePages : Z) :
  0 < totalPages → totalPages ≤ MAX_SAFE_INTEGER →
  1 ≤ maxVisiblePages →
  Z.min maxVisiblePages totalPages ≤ Pagination64.maxArrayLength →
  1 ≤ currentPage ≤ totalPages →
  ∃ pages,
    Pagination64.getPages currentPage totalPages maxVisiblePages = Some pages
    ∧ Z.of_nat (length pages) = Z.min maxVisiblePages totalPages
    ∧ ∃ first final,
        head pages = Some first ∧ last pages = Some final
        ∧ pages = seqZ first (final - first + 1)
        ∧ ∀ (i : nat) p q,
            pages !! i = Some p → pages !! S i = Some q → q = p + 1.
Proof.
  intros Ht Hsafe Hm Hlen Hc.
  exists (getPages currentPage totalPages maxVisiblePages). split.
  - apply getPages_binary64_exact; [lia|lia|done].
  - by apply getPages_exact_length_contiguous.
Qed.

Lemma getPages_length_contiguous_witness :
  ∃ pages,
    Pagination64.getPages 9 10 4 = Some pages
    ∧ Z.of_nat (length pages) = Z.min 4 10
    ∧ ∃ first final,
        head pages = Some first ∧ last pages = Some final
        ∧ pages = seqZ first (final - first + 1)
        ∧ ∀ (i : nat) p q,
            pages !! i = Some p → pages !! S i = Some q → q = p + 1.
Proof.
  apply (getPages_length_contiguous 9 10 4);
    unfold MAX_SAFE_INTEGER, Pagination64.maxArrayLength; lia.
Defined.

(** Past [2^53] the sums round.  With [2^53 + 2] pages and the last page
    current, one page number comes twice and the one after it is
    skipped; with [2^53 + 100] pages and page [2^53 + 4] current the
    window has seven entries, not five.  And a window longer than an
    array can be is not returned: [Array.from] throws. *)
Lemma getPages_beyond_safe_integers_not_contiguous :
  Pagination64.getPages (2 ^ 53 + 2) (2 ^ 53 + 2) 5
  = Some [9007199254740990; 9007199254740991; 9007199254740992;
          9007199254740992; 9007199254740994]
  ∧ Pagination64.getPages (2 ^ 53 + 4) (2 ^ 53 + 100) 5
    = Some [9007199254740994; 9007199254740996; 9007199254740996;
            9007199254740996; 9007199254740998; 9007199254741000;
            9007199254741000]
  ∧ Pagination64.getPages (2 ^ 32) (2 ^ 32) (2 ^ 32) = None.
Proof. split_and!; vm_compute; reflexivity. Qed.

(** C3, as the code has it.  When [maxVisiblePages ≥ 1], at most the
    greatest array length [2^32 - 1], [maxVisiblePages ≤ totalPages ≤
    2^53 - 1] and the current page is in [[1, totalPages]], the window
    [getPages] returns contains the current page. *)
Theorem getPages_contains_current (currentPage totalPages maxVisiblePages : Z) :
  1 ≤ maxVisiblePages → maxVisiblePages ≤ Pagination64.maxArrayLength →
  maxVisiblePages ≤ totalPages → totalPages ≤ MAX_SAFE_INTEGER →
  1 ≤ currentPage ≤ totalPages →
  ∃ pages,
    Pagination64.getPages currentPage totalPages maxVisiblePages = Some pages
    ∧ currentPage ∈ pages.
Proof.
  intros Hm Hlen Ht Hsafe Hc.
  exists (getPages currentPage totalPages maxVisiblePages). split.
  - apply getPages_binary64_exact; lia.
  - by apply getPages_exact_contains_current.
Qed.

Lemma getPages_contains_current_witness :
  ∃ pages, Pagination64.getPages 10 10 2 = Some pages ∧ 10 ∈ pages.
Proof.
  apply (getPages_contains_current 10 10 2);
    unfold MAX_SAFE_INTEGER, Pagination64.maxArrayLength; lia.
Defined.

(** With [2^53] pages and the last page current, [startPage + 5] rounds
    down to [2^53], so the window ends one page early and the current
    page is not in it.  With [2^32] pages and as many buttons no window
    is returned at all. *)
Lemma getPages_beyond_safe_integers_misses_current :
  (∃ pages,
     Pagination64.getPages (2 ^ 53) (2 ^ 53) 5 = Some pages
     ∧ pages = [9007199254740988; 9007199254740989; 9007199254740990;
                9007199254740991]
     ∧ 2 ^ 53 ∉ pages)
  ∧ Pagination64.getPages (2 ^ 32) (2 ^ 32) (2 ^ 32) = None.
Proof.
  split; [|vm_compute; reflexivity].
  eexists. split_and!; [vm_compute; reflexivity|reflexivity|].
  intros Hin. repeat (apply elem_of_cons in Hin as [Hin|Hin]; [done|]).
  by apply elem_of_nil in Hin.
Qed.

(** ** The schema library

    A parse that gives no value has raised an issue, so a failed
    [safeParse] always carries at least one. *)
Lemma mergeResults_aborted {A} (results : list (list ZodIssue * option A)) :
  Forall (λ r, r.2 = None → r.1 ≠ []) results →
  (mergeResults results).2 = None → (mergeResults results).1 ≠ [].
Proof.
  unfold mergeResults. simpl.
  induction 1 as [|[iss [v|]] rest Hr _ IH]; simpl in *; [done| |].
  - intros Hnone Happ. apply app_eq_nil in Happ as [_ Hrest].
    apply fmap_None in Hnone. by apply IH.
  - intros _ Happ. apply app_eq_nil in Happ as [Hiss _]. by apply Hr.
Qed.

Lemma _parse_aborted_has_issue :
  ∀ schema path input,
    (_parse schema path input).2 = None → (_parse schema path input).1 ≠ [].
Proof.
  fix IH 1. intros schema path input.
  destruct schema as [|checks|shape|element|inner f].
  - destruct input as [[]|]; simpl; done.
  - destruct input as [[]|]; simpl; done.
  - destruct input as [[| | | | |props]|]; try (simpl; done).
    cbn [_parse fst snd].
    set (pairs := map _ shape).
    intros Hnone. apply mergeResults_aborted.
    + subst pairs. clear Hnone. induction shape as [|[key sub] rest IHs]; simpl.
      * constructor.
      * constructor; [|exact IHs]. simpl.
        intros Hnone. apply IH.
        destruct (_parse sub _ _).2; [done|reflexivity].
    + by destruct (mergeResults pairs).2.
  - destruct input as [[| | | |items|]|]; try (simpl; done).
    cbn [_parse fst snd].
    set (results := imap _ items).
    intros Hnone. apply mergeResults_aborted.
    + subst results. clear Hnone.
      assert (Hall : ∀ g : nat → list PathElem,
                Forall (λ r, r.2 = None → r.1 ≠ [])
                  (imap (λ index item, _parse element (g index) (Some item))
                        items)).
      { induction items as [|item rest IHs]; intros g; simpl.
        - constructor.
        - constructor; [apply IH|]. exact (IHs (λ i, g (S i))). }
      exact (Hall (λ index, path ++ [PIndex index])).
    + by destruct (mergeResults results).2.
  - simpl. destruct ((_parse inner path input).1) eqn:H1.
    + simpl. intros H2. exfalso. destruct ((_parse inner path input).2) eqn:H3; [done|].
      by apply (IH inner path input).
    + rewrite H1. done.
Qed.

Lemma safeParse_error_has_issue (schema : Schema) (data : Json)
    (error : ZodError) :
  safeParse schema data = SafeParseError error → issues error ≠ [].
Proof.
  unfold safeParse.
  pose proof (_parse_aborted_has_issue schema [] (Some data)) as Hab.
  destruct (_parse schema [] (Some data)) as [iss [v|]]; simpl in *.
  - destruct iss; [done|]. by intros [= <-].
  - intros Herr. assert (iss ≠ []) by by apply Hab.
    destruct iss; [done|]. by injection Herr as <-.
Qed.

(** ** Error classification *)

Section Classification.
Context {A : Type}.

(** The four branches of the rejection handler, by the class of the
    value it receives. *)
Lemma onRejected_NetError type message inner :
  @onRejected A (VNetError type message inner)
  = Rejected (VNetError type message inner).
Proof. reflexivity. Qed.

Lemma onRejected_ZodError (error : ZodError) :
  @onRejected A (VZodError error)
  = Rejected (VNetError validation_error (VStr (ZodError_message error))
                        (VZodError error)).
Proof. reflexivity. Qed.

Lemma onRejected_Error name message :
  @onRejected A (VError name message)
  = Rejected (VNetError network_error (VStr message) (VError name message)).
Proof. reflexivity. Qed.

Lemma onRejected_other (error : JsValue) :
  instanceof_Error error = false →
  @onRejected A error
  = then_ (read_message error) (λ message,
      Rejected (VNetError unknown_error message error)).
Proof. destruct error; simpl; intros; done. Qed.

(** Whatever it receives, the handler rejects. *)
Lemma onRejected_rejects (error : JsValue) :
  ∃ reason, @onRejected A error = Rejected reason.
Proof. destruct error; simpl; eauto. Qed.

(** A non-success response makes the [then] handler of every operation
    throw the server error, which the rejection handler lets through. *)
Lemma server_error_chain (p : Settled Response) (response : Response)
    (message : string) (onOk : Response → Settled A) :
  p = Fulfilled response →
  ok response = false →
  text response = Fulfilled message →
  catch_ (then_ p (λ response,
            if negb (ok response) then throwServerError response
            else onOk response)) onRejected
  = Rejected (VNetError server_error (VStr message) VUndefined).
Proof.
  intros -> Hok Htext. simpl. rewrite Hok. simpl.
  unfold throwServerError. rewrite Htext. reflexivity.
Qed.

(** A rejected [fetch] goes straight to the rejection handler. *)
Lemma rejected_fetch_chain (p : Settled Response) (reason : JsValue)
    (onFulfilled : Response → Settled A) :
  p = Rejected reason →
  catch_ (then_ p onFulfilled) onRejected = onRejected reason.
Proof. intros ->. reflexivity. Qed.
End Classification.

(** C4, as the code has it.  In each of the five request operations, a
    response whose [ok] is false and whose [text()] resolves makes the
    operation reject with a [NetError] of type [server-error] whose
    message is the text [response.text()] yields, as it is, and which
    wraps no inner error. *)
Theorem non_ok_response_is_server_error
    (fetch : Request → Settled Response) (response : Response)
    (message : string) (page limit : Z) (id : string) (payload : Parsed)
    (customerId : Z) :
  ok response = false →
  text response = Fulfilled message →
  let e := VNetError server_error (VStr message) VUndefined in
  (fetch (customerListingRequest page limit) = Fulfilled response →
   fetchCustomerListing fetch page limit = Rejected e)
  ∧ (fetch (customerRequest id) = Fulfilled response →
     fetchCustomer fetch id = Rejected e)
  ∧ (fetch (registerRequest payload) = Fulfilled response →
     registerCustomer fetch payload = Rejected e)
  ∧ (fetch (updateRequest id payload) = Fulfilled response →
     updateCustomer fetch id payload = Rejected e)
  ∧ (fetch (deleteRequest customerId) = Fulfilled response →
     deleteCustomer fetch customerId = Rejected e).
Proof.
  intros Hok Htext e.
  split_and!; intros Hfetch.
  - unfold fetchCustomerListing. eapply server_error_chain; eauto.
  - unfold fetchCustomer. eapply server_error_chain; eauto.
  - unfold registerCustomer. eapply server_error_chain; eauto.
  - unfold updateCustomer. eapply server_error_chain; eauto.
  - unfold deleteCustomer.
    exact (server_error_chain _ _ _ (λ _, Fulfilled tt) Hfetch Hok Htext).
Qed.

Lemma non_ok_response_is_server_error_witness :
  let fetch := λ _ : Request, Fulfilled response_500_boom in
  let e := VNetError server_error (VStr "boom") VUndefined in
  fetchCustomerListing fetch 1 5 = Rejected e
  ∧ fetchCustomer fetch "7" = Rejected e
  ∧ registerCustomer fetch (PObj []) = Rejected e
  ∧ updateCustomer fetch "7" (PObj []) = Rejected e
  ∧ deleteCustomer fetch 7 = Rejected e.
Proof.
  intros fetch e.
  destruct (non_ok_response_is_server_error fetch response_500_boom "boom"
              1 5 "7" (PObj []) 7 eq_refl eq_refl)
    as (H1 & H2 & H3 & H4 & H5).
  split_and!; [apply H1 | apply H2 | apply H3 | apply H4 | apply H5];
    reflexivity.
Defined.

(** A response whose [ok] is false and whose body cannot be read: the
    promise of [text()] rejects with a [TypeError], and the operation
    rejects with a [network-error] that wraps it, not with a
    [server-error]. *)
Lemma non_ok_response_without_text_is_network_error :
  let reason := VError "TypeError" "Failed to fetch" in
  let response :=
    {| ok := false; text := Rejected reason; json := Rejected reason |} in
  let fetch := λ _ : Request, Fulfilled response in
  let e := VNetError network_error (VStr "Failed to fetch") reason in
  fetchCustomerListing fetch 1 5 = Rejected e
  ∧ fetchCustomer fetch "7" = Rejected e
  ∧ registerCustomer fetch (PObj []) = Rejected e
  ∧ updateCustomer fetch "7" (PObj []) = Rejected e
  ∧ deleteCustomer fetch 7 = Rejected e.
Proof. split_and!; reflexivity. Qed.

(** When reading the body text fails, the failure is classified like any
    other: the operation still rejects, but not with a server error built
    from a body text. *)
Lemma non_ok_response_unreadable_body
    (fetch : Request → Settled Response) (response : Response)
    (reason : JsValue) (page limit : Z) :
  fetch (customerListingRequest page limit) = Fulfilled response →
  ok response = false →
  text response = Rejected reason →
  fetchCustomerListing fetch page limit = onRejected reason.
Proof.
  intros Hfetch Hok Htext. unfold fetchCustomerListing.
  rewrite Hfetch. simpl. rewrite Hok. simpl.
  unfold throwServerError. rewrite Htext. reflexivity.
Qed.

(** A body that parses as JSON but fails the schema of the operation makes
    the [then] handler reject with the [ZodError], which the rejection
    handler wraps. *)
Lemma validation_error_chain (p : Settled Response) (response : Response)
    (schema : Schema) (data : Json) (error : ZodError) :
  p = Fulfilled response →
  ok response = true →
  json response = Fulfilled data →
  safeParse schema data = SafeParseError error →
  catch_ (then_ p (λ response,
            if negb (ok response) then throwServerError response
            else then_ (json response) (λ data, parseAsync schema data)))
         onRejected
  = Rejected (VNetError validation_error (VStr (ZodError_message error))
                        (VZodError error)).
Proof.
  intros -> Hok Hjson Hparse. simpl. rewrite Hok. simpl. rewrite Hjson. simpl.
  unfold parseAsync. rewrite Hparse. reflexivity.
Qed.

(** C5, as the code has it.  A validation failure is rethrown as a
    [NetError] of type [validation-error] whose cause is the failure itself
    and whose message is the failure's own [message] property, which for a
    [ZodError] is the indented JSON text of its issue list.  So it is in the
    rejection handler, and so it is in the three operations that validate
    the body of a successful response against a schema. *)
Theorem validation_failure_keeps_own_message
    (fetch : Request → Settled Response) (response : Response)
    (data : Json) (error : ZodError)
    (page limit : Z) (id : string) (payload : Parsed) :
  ok response = true →
  json response = Fulfilled data →
  let classified :=
    VNetError validation_error
      (VStr (JSON_stringify_2 (JArr (map issue_to_Json (issues error)))))
      (VZodError error) in
  (∀ A, @onRejected A (VZodError error) = Rejected classified)
  ∧ (fetch (customerListingRequest page limit) = Fulfilled response →
     safeParse CustomerListingSchema data = SafeParseError error →
     fetchCustomerListing fetch page limit = Rejected classified)
  ∧ (fetch (customerRequest id) = Fulfilled response →
     safeParse GetCustomerSchema data = SafeParseError error →
     fetchCustomer fetch id = Rejected classified)
  ∧ (fetch (updateRequest id payload) = Fulfilled response →
     safeParse GetCustomerSchema data = SafeParseError error →
     updateCustomer fetch id payload = Rejected classified).
Proof.
  intros Hok Hjson classified. split_and!.
  - reflexivity.
  - intros Hfetch Hparse. unfold fetchCustomerListing.
    eapply validation_error_chain; eauto.
  - intros Hfetch Hparse. unfold fetchCustomer.
    eapply validation_error_chain; eauto.
  - intros Hfetch Hparse. unfold updateCustomer.
    eapply validation_error_chain; eauto.
Qed.

Lemma validation_failure_keeps_own_message_witness :
  let response := {| ok := true; text := Fulfilled "";
                     json := Fulfilled listing_with_text_total |} in
  let error := mkZodError
                 [invalid_type "number" "string"
                    [PKey "data"; PKey "total_pages"]
                    "Expected number, received string"] in
  let classified :=
    VNetError validation_error
      (VStr (JSON_stringify_2 (JArr (map issue_to_Json (issues error)))))
      (VZodError error) in
  @onRejected unit (VZodError error) = Rejected classified
  ∧ fetchCustomerListing (λ _, Fulfilled response) 1 5 = Rejected classified.
Proof.
  intros response error classified.
  destruct (validation_failure_keeps_own_message
              (λ _, Fulfilled response) response listing_with_text_total error
              1 5 "7" (PObj []) eq_refl eq_refl)
    as (H0 & H1 & _ & _).
  split; [apply (H0 unit) | apply H1; reflexivity].
Defined.

(** Lengths of the texts [JSON.stringify] and [join] build. *)
Lemma length_append (a b : string) :
  String.length (a +:+ b) = (String.length a + String.length b)%nat.
Proof. induction a as [|c a IH]; simpl; [done|]. by rewrite IH. Qed.

Lemma json_escape_char_length c : (1 ≤ String.length (json_escape_char c))%nat.
Proof. unfold json_escape_char. repeat case_decide; simpl; lia. Qed.

Lemma json_escape_length s : (String.length s ≤ String.length (json_escape s))%nat.
Proof.
  induction s as [|c s IH]; simpl; [done|].
  rewrite length_append. pose proof (json_escape_char_length c). lia.
Qed.

Lemma json_quote_length s : (String.length s + 2 ≤ String.length (json_quote s))%nat.
Proof.
  unfold json_quote. rewrite !length_append. simpl.
  pose proof (json_escape_length s). lia.
Qed.

Lemma issue_text_length indent issue :
  (String.length (issue_message issue) + 2
   ≤ String.length (JSON_stringify_at indent (issue_to_Json issue)))%nat.
Proof.
  destruct issue as [e r p m|v p m]; cbn [issue_to_Json issue_message JSON_stringify_at map fst snd Array_join String.concat].
  all: rewrite ?length_append; pose proof (json_quote_length m); lia.
Qed.

Lemma concat_length sep l :
  String.length (String.concat sep l)
  = (total_length l + (List.length l - 1) * String.length sep)%nat.
Proof.
  induction l as [|x l IH]; [done|].
  destruct l as [|y r].
  - simpl. lia.
  - change (String.concat sep (x :: y :: r))
      with (x +:+ sep +:+ String.concat sep (y :: r)).
    rewrite !length_append, IH. cbn [total_length List.length]. lia.
Qed.

Lemma total_length_messages indent (l : list ZodIssue) :
  (total_length (map issue_message l) + 2 * List.length l
   ≤ total_length (map (JSON_stringify_at indent) (map issue_to_Json l)))%nat.
Proof.
  induction l as [|i l IH]; simpl; [done|].
  pose proof (issue_text_length indent i). lia.
Qed.

(** Whatever the issues are, the text the classifier stores differs from
    the comma-separated join of their messages: it is strictly longer. *)
Lemma validation_message_never_the_joined_messages (error : ZodError) :
  ZodError_message error ≠ Array_join ", " (map issue_message (errors error)).
Proof.
  intros Heq. apply (f_equal String.length) in Heq.
  destruct error as [l]. unfold ZodError_message, errors, JSON_stringify_2, Array_join in Heq.
  cbn [issues] in Heq.
  destruct l as [|i l]; [discriminate|].
  pose proof (total_length_messages "  " (i :: l)) as Hlen.
  cbn [map JSON_stringify_at] in Heq.
  rewrite !length_append, !concat_length in Heq.
  change ("" +:+ "  ") with "  " in Heq.
  change (String.length ("," +:+ newline +:+ "  ")) with 4%nat in Heq.
  change (String.length ", ") with 2%nat in Heq.
  change (String.length newline) with 1%nat in Heq.
  cbn [List.length total_length map String.length] in Heq, Hlen.
  rewrite !length_map in Heq. lia.
Qed.

(** C5, as the specification states it, fails.  For the two issues of its
    scenario the classified message is not [email invalid, name required];
    and a listing response whose [total_pages] is a string is rejected with
    a message that is not the one issue message it raised. *)
Lemma validation_message_is_not_the_joined_messages :
  (Array_join ", " (map issue_message (errors two_field_errors))
   = "email invalid, name required"
   ∧ @onRejected Parsed (VZodError two_field_errors)
     ≠ Rejected (VNetError validation_error
                   (VStr "email invalid, name required")
                   (VZodError two_field_errors)))
  ∧ ∃ error,
      safeParse CustomerListingSchema listing_with_text_total
      = SafeParseError error
      ∧ Array_join ", " (map issue_message (errors error))
        = "Expected number, received string"
      ∧ fetchCustomerListing
          (λ _, Fulfilled {| ok := true; text := Fulfilled "";
                             json := Fulfilled listing_with_text_total |}) 1 5
        ≠ Rejected (VNetError validation_error
                      (VStr "Expected number, received string")
                      (VZodError error)).
Proof.
  split; [split; [reflexivity | discriminate]|].
  eexists. split_and!.
  - vm_compute. reflexivity.
  - reflexivity.
  - vm_compute. discriminate.
Qed.

(** C6. A value that already is a [NetError] passes the rejection handler
    unchanged: whatever promise it arrives on, the handler rethrows that
    very value, and so does each of the five operations when the transport
    rejects with it. *)
Theorem classified_error_passes_through
    (error : JsValue) (fetch : Request → Settled Response)
    (page limit : Z) (id : string) (payload : Parsed) (customerId : Z) :
  instanceof_NetError error = true →
  (∀ A (p : Settled A), p = Rejected error →
     catch_ p onRejected = Rejected error)
  ∧ (fetch (customerListingRequest page limit) = Rejected error →
     fetchCustomerListing fetch page limit = Rejected error)
  ∧ (fetch (customerRequest id) = Rejected error →
     fetchCustomer fetch id = Rejected error)
  ∧ (fetch (registerRequest payload) = Rejected error →
     registerCustomer fetch payload = Rejected error)
  ∧ (fetch (updateRequest id payload) = Rejected error →
     updateCustomer fetch id payload = Rejected error)
  ∧ (fetch (deleteRequest customerId) = Rejected error →
     deleteCustomer fetch customerId = Rejected error).
Proof.
  intros Hnet.
  destruct error as [| | | | | | | |type message inner]; try discriminate.
  split_and!.
  - intros A p ->. reflexivity.
  - intros H. unfold fetchCustomerListing. by rewrite H.
  - intros H. unfold fetchCustomer. by rewrite H.
  - intros H. unfold registerCustomer. by rewrite H.
  - intros H. unfold updateCustomer. by rewrite H.
  - intros H. unfold deleteCustomer. by rewrite H.
Qed.

Lemma classified_error_passes_through_witness :
  let error :=
    VNetError validation_error (VStr "bad")
      (VNetError server_error (VStr "boom") VUndefined) in
  catch_ (@Rejected unit error) onRejected = Rejected error
  ∧ deleteCustomer (λ _, Rejected error) 7 = Rejected error.
Proof.
  intros error.
  destruct (classified_error_passes_through error (λ _, Rejected error)
              1 5 "7" (PObj []) 7 eq_refl)
    as (H0 & _ & _ & _ & _ & H5).
  split; [apply (H0 unit) | apply H5]; reflexivity.
Defined.

(** The handler is idempotent on every value other than [undefined] and
    [null]: classifying what it threw gives the same value again. *)
Lemma onRejected_idempotent {A} (error reason : JsValue) :
  error ≠ VUndefined → error ≠ VNull →
  @onRejected A error = Rejected reason →
  @onRejected A reason = Rejected reason.
Proof.
  destruct error; simpl; intros ? ? [= <-]; done.
Qed.

(** C7, evaluated.  The last branch of the handler reads [error.message]
    off a value that is no [Error]: for a thrown string or number the
    [NetError] gets the message [undefined], not a text; for a thrown
    [undefined] or [null] the read itself throws, and what comes out is a
    [TypeError], not a [NetError]. *)
Theorem unknown_error_message_is_not_stringified :
  @onRejected unit (VStr "boom")
  = Rejected (VNetError unknown_error VUndefined (VStr "boom"))
  ∧ @onRejected unit (VNum 42)
    = Rejected (VNetError unknown_error VUndefined (VNum 42))
  ∧ @onRejected unit VUndefined
    = Rejected (VError "TypeError"
                  "Cannot read properties of undefined (reading 'message')")
  ∧ fetchCustomerListing (λ _, Rejected (VStr "boom")) 1 5
    = Rejected (VNetError unknown_error VUndefined (VStr "boom")).
Proof. split_and!; reflexivity. Qed.

(** What does hold in the last branch: a value that is no [Error] and is
    neither [undefined] nor [null] is wrapped as an [unknown-error] whose
    cause is the value itself; the message is the value's own [message]
    property, which primitives lack. *)
Lemma unknown_error_wraps_value {A} (error : JsValue) :
  instanceof_Error error = false →
  error ≠ VUndefined → error ≠ VNull →
  ∃ message,
    read_message error = Fulfilled message
    ∧ @onRejected A error = Rejected (VNetError unknown_error message error)
    ∧ (match error with
       | VBool _ | VNum _ | VStr _ => message = VUndefined
       | _ => True
       end).
Proof.
  destruct error; simpl; intros; try done; eauto.
Qed.

(** ** Form submission *)

Import Forms.

(** Reading a key off the property list of a dictionary is the lookup in
    the dictionary. *)
Lemma assoc_get_elem_of {V} (key : string) (props : list (string * V)) v :
  NoDup props.*1 →
  assoc_get key props = Some v ↔ (key, v) ∈ props.
Proof.
  induction props as [|[k w] rest IH]; simpl; intros Hnd.
  - split; [done|]. intros H. by apply elem_of_nil in H.
  - apply NoDup_cons in Hnd as [Hk Hnd].
    rewrite elem_of_cons. case_decide as Heq.
    + subst k. split.
      * intros [= ->]. by left.
      * intros [[= ->]|Hin]; [done|].
        exfalso. apply Hk. apply list_elem_of_fmap. by exists (key, v).
    + rewrite IH by done. split; [by right|].
      intros [[= -> ->]|Hin]; done.
Qed.

Lemma assoc_get_map_to_list {V} (key : string) (m : gmap string V) :
  assoc_get key (map_to_list m) = m !! key.
Proof.
  apply option_eq. intros v.
  rewrite assoc_get_elem_of by apply NoDup_fst_map_to_list.
  apply elem_of_map_to_list.
Qed.

(** The last entry of a name is the one the payload keeps. *)
Lemma collectPayload_snoc entries key value :
  collectPayload (entries ++ [(key, value)])
  = assign_entry (collectPayload entries) key (entry_toString value).
Proof. unfold collectPayload. by rewrite fold_left_app. Qed.

(** What the schema of the manage form does with a payload: it asks for
    the four keys, in this order, and a payload fails exactly when it lacks
    one of them. *)
Lemma UpdateCustomerSchema_safeParse (payload : gmap string string) :
  safeParse UpdateCustomerSchema (payload_to_Json payload)
  = match payload !! "name", payload !! "email",
          payload !! "contact", payload !! "dob" with
    | Some name, Some email, Some contact, Some dob =>
        SafeParseSuccess
          (PObj [("name", PStr name); ("email", PStr email);
                 ("contact", PStr contact); ("dob", PStr dob)])
    | _, _, _, _ =>
        SafeParseError
          (mkZodError (required_string payload "name"
                       ++ required_string payload "email"
                       ++ required_string payload "contact"
                       ++ required_string payload "dob"))
    end.
Proof.
  unfold safeParse, payload_to_Json, required_string.
  change UpdateCustomerSchema
    with (z_object [("name", z_string []); ("email", z_string []);
                    ("contact", z_string []); ("dob", z_string [])]).
  cbn -[map_to_list].
  rewrite !assoc_get_map_to_list, !lookup_fmap.
  destruct (payload !! "name"), (payload !! "email"),
           (payload !! "contact"), (payload !! "dob"); reflexivity.
Qed.

(** C8, as the code has it.  Both submit handlers validate the collected
    payload first.  When validation fails the handler does two things only:
    it prevents the default submission and shows one alert, whose text is
    the issue messages joined by a comma and a space, then a line break and
    the sentence [Please correct the errors and try again.]; [mutate] is not
    called and no request is made.  When validation succeeds no alert is
    shown and [mutate] is called once, with the validated data, which makes
    the one request. *)
Theorem invalid_form_is_not_submitted `{StringFormats}
    (entries : list (string * FormDataEntryValue)) (id : string) :
  let payload := payload_to_Json (collectPayload entries) in
  match safeParse RegisterCustomerSchema payload with
  | SafeParseError error =>
      RegisterCustomer_onSubmit entries
      = [PreventDefault;
         Alert (Array_join ", " (map issue_message (errors error))
                +:+ newline +:+ "Please correct the errors and try again.")]
      ∧ mutations (RegisterCustomer_onSubmit entries) = []
      ∧ register_requests (RegisterCustomer_onSubmit entries) = []
  | SafeParseSuccess data =>
      RegisterCustomer_onSubmit entries
      = [PreventDefault; FormReset; Mutate data]
      ∧ alerts (RegisterCustomer_onSubmit entries) = []
      ∧ register_requests (RegisterCustomer_onSubmit entries)
        = [registerRequest data]
  end
  ∧ match safeParse UpdateCustomerSchema payload with
    | SafeParseError error =>
        ManageCustomer_onSubmit entries
        = [PreventDefault;
           Alert (Array_join ", " (map issue_message (errors error))
                  +:+ newline +:+ "Please correct the errors and try again.")]
        ∧ mutations (ManageCustomer_onSubmit entries) = []
        ∧ update_requests id (ManageCustomer_onSubmit entries) = []
    | SafeParseSuccess data =>
        ManageCustomer_onSubmit entries = [PreventDefault; Mutate data]
        ∧ alerts (ManageCustomer_onSubmit entries) = []
        ∧ update_requests id (ManageCustomer_onSubmit entries)
          = [updateRequest id data]
    end.
Proof.
  intros payload. split.
  - unfold RegisterCustomer_onSubmit. fold payload.
    destruct (safeParse RegisterCustomerSchema payload); split_and!; reflexivity.
  - unfold ManageCustomer_onSubmit. fold payload.
    destruct (safeParse UpdateCustomerSchema payload); split_and!; reflexivity.
Qed.

(** [mutate] is reached only through a successful validation. *)
Lemma mutate_only_after_validation
    (entries : list (string * FormDataEntryValue)) (data : Parsed) :
  Mutate data ∈ ManageCustomer_onSubmit entries →
  safeParse UpdateCustomerSchema (payload_to_Json (collectPayload entries))
  = SafeParseSuccess data.
Proof.
  unfold ManageCustomer_onSubmit.
  destruct (safeParse _ _) as [d|e]; simpl; intros Hin.
  - apply elem_of_cons in Hin as [?|Hin]; [done|].
    apply list_elem_of_singleton in Hin. congruence.
  - apply elem_of_cons in Hin as [?|Hin]; [done|].
    apply list_elem_of_singleton in Hin. done.
Qed.

(** C8, as the specification states it, fails: the text shown is not the
    joined messages alone.  Here the register form is submitted with an
    empty date of birth. *)
Lemma alert_is_not_the_joined_messages_alone :
  ∃ error,
    safeParse (@RegisterCustomerSchema scenario_formats)
      (payload_to_Json (collectPayload entries_with_empty_dob))
    = SafeParseError error
    ∧ Array_join ", " (map issue_message (errors error)) = "Invalid date"
    ∧ alerts (@RegisterCustomer_onSubmit scenario_formats entries_with_empty_dob)
      ≠ [Array_join ", " (map issue_message (errors error))].
Proof.
  eexists. split_and!.
  - vm_compute. reflexivity.
  - reflexivity.
  - vm_compute. discriminate.
Qed.

(** Both branches of the register handler, run. *)
Example register_with_empty_dob :
  @RegisterCustomer_onSubmit scenario_formats entries_with_empty_dob
  = [PreventDefault;
     Alert ("Invalid date" +:+ newline
            +:+ "Please correct the errors and try again.")].
Proof. vm_compute. reflexivity. Qed.

Example register_complete :
  @RegisterCustomer_onSubmit scenario_formats entries_complete
  = [PreventDefault; FormReset;
     Mutate (PObj [("name", PStr "jane");
                   ("email", PStr "jane.smith@mail.net");
                   ("contact", PStr "+60198765432");
                   ("dob", PStr "2024-01-10")])].
Proof. vm_compute. reflexivity. Qed.

(** The manage form without two of its fields: two issues, one alert. *)
Example manage_without_email_dob :
  ManageCustomer_onSubmit entries_without_email_dob
  = [PreventDefault;
     Alert ("Required, Required" +:+ newline
            +:+ "Please correct the errors and try again.")].
Proof. vm_compute. reflexivity. Qed.

(** ** The listing controller *)

Import Listing.

Lemma useQuery_key s : queryKey (useQuery s) = queryKey s.
Proof. reflexivity. Qed.


(** Subscribing touches the query of the current key only. *)
Lemma useQuery_lookup_ne s key :
  key ≠ queryKey s → queries (useQuery s) !! key = queries s !! key.
Proof.
  intros Hne. unfold useQuery; simpl.
  destruct (queries s !! queryKey s) as [[|error [data|]|data]|];
    first [done | by rewrite lookup_insert_ne].
Qed.

(** C9. When the delete mutation settles, fulfilled or rejected alike, the
    [onSettled] callback sets the page to 1 and invalidates the listing
    query of page 1 and the current limit; the limit and the cached results
    stay as they were.  After the event the component is on page 1 with
    that query being fetched again. *)
Theorem delete_settled_resets_page (s : State) (outcome : Settled unit)
    (id : Z) (fetch : Request → Settled Response) :
  settleMutation outcome s
  = invalidateQueries (1, limit s) (setPage 1 s)
  ∧ page (settleMutation outcome s) = 1
  ∧ limit (settleMutation outcome s) = limit s
  ∧ queries (settleMutation outcome s) = queries s
  ∧ (1, limit s) ∈ fetching (settleMutation outcome s)
  ∧ queryKey (step s (DeleteSettled id fetch)) = (1, limit s)
  ∧ (1, limit s) ∈ fetching (step s (DeleteSettled id fetch)).
Proof.
  assert (Hs : settleMutation outcome s
               = invalidateQueries (1, limit s) (setPage 1 s))
    by (destruct outcome; reflexivity).
  split_and!; try (rewrite Hs; simpl; first [done | set_solver]).
  - simpl. destruct (deleteCustomer fetch id); reflexivity.
  - simpl. destruct (deleteCustomer fetch id); simpl; set_solver.
Qed.

(** The page reset does not look at the page the user was on: a failed
    delete on page 3 leaves the listing on page 1. *)
Example failed_delete_on_page_3 :
  let fetch := λ _ : Request, Fulfilled response_500_boom in
  let s := run initial [PageChange 3; DeleteSettled 7 fetch] in
  deleteCustomer fetch 7
  = Rejected (VNetError server_error (VStr "boom") VUndefined)
  ∧ page s = 1 ∧ render s = ViewLoading.
Proof. split_and!; reflexivity. Qed.

(** A settled fetch writes the query of its own key and no other. *)
Lemma settleQuery_lookup_ne s key outcome k :
  k ≠ key → queries (settleQuery key outcome s) !! k = queries s !! k.
Proof.
  intros Hne. unfold settleQuery. case_decide; [|done].
  simpl. by rewrite lookup_insert_ne.
Qed.

Lemma settleQuery_key s key outcome :
  queryKey (settleQuery key outcome s) = queryKey s.
Proof. unfold settleQuery. by case_decide. Qed.

(** C10. A fetch that settles under a key other than the current
    [(page, limit)] leaves what the component shows untouched: the current
    key stays, the result is stored under the key it was requested with,
    and every other query, the current one included, keeps its state. *)
Theorem stale_result_is_not_shown (s : State) (key : Z * Z)
    (fetch : Request → Settled Response) :
  key ≠ queryKey s →
  render (step s (QuerySettled key fetch)) = render s
  ∧ queryKey (step s (QuerySettled key fetch)) = queryKey s
  ∧ ∀ k, k ≠ key →
      queries (step s (QuerySettled key fetch)) !! k = queries s !! k.
Proof.
  intros Hne. simpl.
  assert (Hq : ∀ k, k ≠ key →
            queries (settleQuery key (queryFn fetch key) s) !! k
            = queries s !! k)
    by (intros k Hk; by apply settleQuery_lookup_ne).
  pose proof (settleQuery_key s key (queryFn fetch key)) as Hk.
  split_and!; [|done|done].
  unfold render. rewrite Hk, Hq by done.
  unfold queryKey in Hk. injection Hk as Hp _. by rewrite Hp.
Qed.

Lemma stale_result_is_not_shown_witness :
  let s := step initial (PageChange 2) in
  let fetch := λ _ : Request, Fulfilled (listing_response 4) in
  render (step s (QuerySettled (1, 5) fetch)) = render s
  ∧ queryKey (step s (QuerySettled (1, 5) fetch)) = queryKey s
  ∧ ∀ k, k ≠ (1, 5) →
      queries (step s (QuerySettled (1, 5) fetch)) !! k = queries s !! k.
Proof.
  intros s fetch.
  apply (stale_result_is_not_shown s (1, 5) fetch).
  vm_compute. discriminate.
Defined.

Example page_2_stays_loading :
  let fetch := λ _ : Request, Fulfilled (listing_response 4) in
  render (run initial [PageChange 2; QuerySettled (1, 5) fetch]) = ViewLoading
  ∧ render (run initial [PageChange 2; QuerySettled (1, 5) fetch;
                         QuerySettled (2, 5) fetch])
    = ViewTable (PObj [("data", PObj [("records", PArr []);
                                      ("total_pages", PNum 4)])])
                2 [1; 2; 3; 4].
Proof. split; reflexivity. Qed.

(** * Further properties *)

Import PaginationView Manage Shapes.

(** ** The pagination component *)


Lemma numbers_buttons (g : Z → bool) (l : list Z) :
  numbers (map (λ number, Button (LNumber number) false (g number) number) l)
  = l.
Proof. induction l as [|x l IH]; simpl; [done|]. by rewrite IH. Qed.

(** The window of the component, for at least one page: [n] consecutive
    numbers from [a], inside [[1, totalPages]]. *)
Lemma window_shape (c t : Z) :
  1 ≤ t →
  ∃ a n, getPages c t 5 = seqZ a n ∧ 1 ≤ n ∧ 1 ≤ a ∧ a + n - 1 ≤ t
         ∧ a = startPage c t 5 ∧ n = Z.min 5 t
         ∧ head (getPages c t 5) = Some a
         ∧ last (getPages c t 5) = Some (a + n - 1).
Proof.
  intros Ht.
  pose proof (endPage_exact c t 5 ltac:(lia) ltac:(lia)) as He.
  pose proof (startPage_lower c t 5) as Hs.
  pose proof (endPage_upper c t 5) as Hu.
  exists (startPage c t 5), (Z.min 5 t).
  assert (Hw : getPages c t 5 = seqZ (startPage c t 5) (Z.min 5 t)).
  { rewrite getPages_unfold. f_equal. lia. }
  split_and!; try done; try lia.
  - rewrite Hw, head_lookup. apply lookup_seqZ. lia.
  - rewrite Hw, last_lookup, length_seqZ. apply lookup_seqZ. lia.
Qed.


Lemma numbers_Pagination (c t : Z) :
  numbers (Pagination c t)
  = match head (getPages c t 5) with
    | Some first => if bool_decide (1 < first) then [1] else []
    | None => []
    end
    ++ getPages c t 5
    ++ match last (getPages c t 5) with
       | Some final => if bool_decide (final < t) then [t] else []
       | None => []
       end.
Proof.
  unfold Pagination, numbers. cbv zeta. rewrite !omap_app.
  fold numbers. rewrite numbers_buttons. simpl.
  f_equal; [by destruct (head _); [case_bool_decide|]|].
  f_equal. rewrite app_nil_r. by destruct (last _); [case_bool_decide|].
Qed.



Lemma StronglySorted_seqZ (a n : Z) : StronglySorted Z.lt (seqZ a n).
Proof.
  destruct (decide (n ≤ 0)) as [|Hn]; [rewrite seqZ_nil by done; constructor|].
  rewrite <- (Z2Nat.id n) by lia.
  induction (Z.to_nat n) as [|k IH]; [constructor|].
  rewrite seqZ_S. apply StronglySorted_app. split_and!.
  - intros x y Hx Hy. apply elem_of_seqZ in Hx.
    apply list_elem_of_singleton in Hy. lia.
  - exact IH.
  - repeat constructor.
Qed.

(** Over the exact integers: with at least one page, whatever the current
    page, the numbered buttons read left to right start with 1, end with
    [totalPages] and ascend strictly. *)
Lemma Pagination_exact_numbers_ascending (currentPage totalPages : Z) :
  1 ≤ totalPages →
  head (numbers (Pagination currentPage totalPages)) = Some 1
  ∧ last (numbers (Pagination currentPage totalPages)) = Some totalPages
  ∧ StronglySorted Z.lt (numbers (Pagination currentPage totalPages)).
Proof.
  intros Ht.
  destruct (window_shape currentPage totalPages Ht)
    as (a & n & Hw & Hn & Ha & Hb & _ & _ & Hhead & Hlast).
  rewrite numbers_Pagination, Hhead, Hlast, Hw.
  assert (Hne : seqZ a n = a :: seqZ (Z.succ a) (Z.pred n))
    by (apply seqZ_cons; lia).
  assert (Hl : last (seqZ a n) = Some (a + n - 1)) by (by rewrite <- Hw).
  destruct (bool_decide_reflect (1 < a)) as [H1|H1],
           (bool_decide_reflect (a + n - 1 < totalPages)) as [H2|H2];
    (split_and!;
     [ first [done | rewrite Hne; simpl; f_equal; lia]
     | rewrite ?last_app; simpl; first [done | rewrite Hl; f_equal; lia]
     | ]).
  all: repeat (apply StronglySorted_app; split_and!);
    try apply StronglySorted_seqZ; try (repeat constructor; fail).
  all: intros x y Hx Hy;
    repeat match goal with
    | H : _ ∈ _ ++ _ |- _ => apply elem_of_app in H as [H|H]
    | H : _ ∈ [] |- _ => by apply elem_of_nil in H
    | H : _ ∈ [_] |- _ => apply list_elem_of_singleton in H
    | H : _ ∈ seqZ _ _ |- _ => apply elem_of_seqZ in H
    end; lia.
Qed.

(** The current page is in the window exactly when it is a page. *)
Lemma current_in_window (c t : Z) : c ∈ getPages c t 5 ↔ 1 ≤ c ≤ t.
Proof.
  rewrite getPages_elem.
  pose proof (startPage_lower c t 5). pose proof (endPage_upper c t 5).
  split; [lia|]. intros Hc.
  rewrite endPage_exact by lia.
  unfold startPage, Math_min, Math_max, Math_floor_half.
  assert (0 ≤ (5 `min` t) `div` 2) by (apply Z.div_pos; lia).
  assert (2 * ((5 `min` t) `div` 2) ≤ 5 `min` t) by (apply Z.mul_div_le; lia).
  lia.
Qed.

Lemma boldLabels_cons label disabled bold page rest :
  boldLabels (Button label disabled bold page :: rest)
  = (if bold then [label] else []) ++ boldLabels rest.
Proof. by destruct bold. Qed.

Lemma boldLabels_buttons (c : Z) (l : list Z) :
  NoDup l →
  boldLabels (map (λ number, Button (LNumber number) false
                                    (bool_decide (number = c)) number) l)
  = if decide (c ∈ l) then [LNumber c] else [].
Proof.
  induction 1 as [|x l Hx Hnd IH].
  - destruct (decide (c ∈ [])) as [Hin|]; [by apply elem_of_nil in Hin|done].
  - cbn [map]. rewrite boldLabels_cons, IH.
    destruct (bool_decide_reflect (x = c)) as [->|Hxc].
    + destruct (decide (c ∈ l)); [done|].
      destruct (decide (c ∈ c :: l)) as [|Hn]; [done|].
      exfalso. apply Hn. apply list_elem_of_here.
    + destruct (decide (c ∈ l)) as [Hin|Hin],
               (decide (c ∈ x :: l)) as [Hin'|Hin']; try done.
      * exfalso. apply Hin'. by apply list_elem_of_further.
      * apply elem_of_cons in Hin' as [->|?]; done.
Qed.

(** Over the exact integers: the pagination shows exactly one label in
    bold, the current page, when the current page is in [[1, totalPages]],
    and none otherwise. *)
Lemma Pagination_exact_bold_is_current (currentPage totalPages : Z) :
  boldLabels (Pagination currentPage totalPages)
  = if decide (1 ≤ currentPage ≤ totalPages) then [LNumber currentPage] else [].
Proof.
  unfold Pagination, boldLabels. cbv zeta. rewrite !omap_app.
  fold boldLabels. rewrite boldLabels_buttons
    by (rewrite getPages_unfold; apply NoDup_seqZ).
  replace (omap _ [Button LPrevious _ false _]) with (@nil Label) by done.
  replace (omap _ [Button LNext _ false _]) with (@nil Label) by done.
  replace (omap _ match head _ with Some _ => _ | None => _ end)
    with (@nil Label) by (by destruct (head _); [case_bool_decide|]).
  replace (omap _ match last _ with Some _ => _ | None => _ end)
    with (@nil Label) by (by destruct (last _); [case_bool_decide|]).
  simpl. rewrite app_nil_r.
  destruct (decide (1 ≤ currentPage ≤ totalPages)) as [Hc|Hc].
  - by rewrite decide_True by by apply current_in_window.
  - by rewrite decide_False by by rewrite current_in_window.
Qed.

(** Over the exact integers: away from both ends the window is centred. *)
Lemma getPages_exact_centred (currentPage totalPages maxVisiblePages : Z) :
  1 ≤ maxVisiblePages ≤ totalPages →
  maxVisiblePages `div` 2 < currentPage →
  currentPage ≤ totalPages - maxVisiblePages + 1 + maxVisiblePages `div` 2 →
  getPages currentPage totalPages maxVisiblePages
  = seqZ (currentPage - maxVisiblePages `div` 2) maxVisiblePages.
Proof.
  intros Hm Hlo Hhi. rewrite getPages_unfold.
  rewrite endPage_exact by lia.
  unfold startPage, Math_min, Math_max, Math_floor_half.
  replace (maxVisiblePages `min` totalPages) with maxVisiblePages by lia.
  f_equal; lia.
Qed.

(** Over the exact integers: moving to the next page leaves the window as
    it is or shifts every entry by one. *)
Lemma getPages_exact_slides_by_one (currentPage totalPages maxVisiblePages : Z) :
  getPages (currentPage + 1) totalPages maxVisiblePages
  = getPages currentPage totalPages maxVisiblePages
  ∨ getPages (currentPage + 1) totalPages maxVisiblePages
    = Z.add 1 <$> getPages currentPage totalPages maxVisiblePages.
Proof.
  rewrite !getPages_unfold, fmap_add_seqZ.
  unfold endPage, startPage, Math_min, Math_max, Math_floor_half.
  set (n := maxVisiblePages `min` totalPages).
  set (h := n `div` 2).
  set (k := totalPages - n + 1).
  destruct (decide (n ≤ 0)) as [Hn|Hn].
  - left. rewrite !seqZ_nil by lia. done.
  - assert (n ≤ totalPages) by lia.
    destruct (decide (((currentPage + 1 - h) `min` k) `max` 1
                      = ((currentPage - h) `min` k) `max` 1)) as [Heq|Hne].
    + left. by rewrite Heq.
    + right. f_equal; lia.
Qed.

(** With [totalPages] up to [2^53 - 1] the component in binary64 shows
    the numbers and the bold labels the exact arithmetic gives. *)
Lemma Pagination_binary64_exact (c t : Z) :
  0 ≤ t ≤ MAX_SAFE_INTEGER →
  ∃ items,
    PaginationView64.Pagination c t = Some items
    ∧ numbers items = numbers (Pagination c t)
    ∧ boldLabels items = boldLabels (Pagination c t).
Proof.
  intros Ht. unfold PaginationView64.Pagination. cbv zeta.
  rewrite getPages_binary64_exact
    by (first [done | unfold Pagination64.maxArrayLength; lia]).
  eexists. split; [reflexivity|].
  unfold Pagination. cbv zeta. split.
  - unfold numbers. by rewrite !omap_app.
  - unfold boldLabels. by rewrite !omap_app.
Qed.

(** X2. With [1 ≤ totalPages ≤ 2^53 - 1], whatever the current page, the
    numbered buttons read left to right start with 1, end with
    [totalPages] and ascend strictly: both ends are always one click away
    and no number is shown twice. *)
Theorem Pagination_numbers_ascending (currentPage totalPages : Z) :
  1 ≤ totalPages ≤ MAX_SAFE_INTEGER →
  ∃ items,
    PaginationView64.Pagination currentPage totalPages = Some items
    ∧ head (numbers items) = Some 1
    ∧ last (numbers items) = Some totalPages
    ∧ StronglySorted Z.lt (numbers items).
Proof.
  intros Ht.
  destruct (Pagination_binary64_exact currentPage totalPages)
    as (items & Hitems & Hnumbers & _); [lia|].
  exists items. rewrite Hnumbers. split; [done|].
  apply Pagination_exact_numbers_ascending. lia.
Qed.

Lemma Pagination_numbers_ascending_witness :
  ∃ items,
    PaginationView64.Pagination 7 50 = Some items
    ∧ head (numbers items) = Some 1
    ∧ last (numbers items) = Some 50
    ∧ StronglySorted Z.lt (numbers items).
Proof.
  apply (Pagination_numbers_ascending 7 50). unfold MAX_SAFE_INTEGER. lia.
Defined.

(** X3. With [0 ≤ totalPages ≤ 2^53 - 1] the pagination shows exactly one
    label in bold, the current page, when the current page is in
    [[1, totalPages]], and none otherwise. *)
Theorem Pagination_bold_is_current (currentPage totalPages : Z) :
  0 ≤ totalPages ≤ MAX_SAFE_INTEGER →
  ∃ items,
    PaginationView64.Pagination currentPage totalPages = Some items
    ∧ boldLabels items
      = if decide (1 ≤ currentPage ≤ totalPages)
        then [LNumber currentPage] else [].
Proof.
  intros Ht.
  destruct (Pagination_binary64_exact currentPage totalPages Ht)
    as (items & Hitems & _ & Hbold).
  exists items. rewrite Hbold. split; [done|].
  apply Pagination_exact_bold_is_current.
Qed.

Lemma Pagination_bold_is_current_witness :
  ∃ items,
    PaginationView64.Pagination 7 50 = Some items
    ∧ boldLabels items = if decide (1 ≤ 7 ≤ 50) then [LNumber 7] else [].
Proof.
  apply (Pagination_bold_is_current 7 50). unfold MAX_SAFE_INTEGER. lia.
Defined.

(** X4. For [totalPages] up to [2^53 - 1] and [maxVisiblePages] up to the
    greatest array length, away from both ends the window is centred: it
    starts [floor(maxVisiblePages / 2)] before the current page and has
    [maxVisiblePages] entries. *)
Theorem getPages_centred (currentPage totalPages maxVisiblePages : Z) :
  1 ≤ maxVisiblePages ≤ totalPages →
  totalPages ≤ MAX_SAFE_INTEGER →
  maxVisiblePages ≤ Pagination64.maxArrayLength →
  maxVisiblePages `div` 2 < currentPage →
  currentPage ≤ totalPages - maxVisiblePages + 1 + maxVisiblePages `div` 2 →
  Pagination64.getPages currentPage totalPages maxVisiblePages
  = Some (seqZ (currentPage - maxVisiblePages `div` 2) maxVisiblePages).
Proof.
  intros Hm Hsafe Hlen Hlo Hhi.
  rewrite getPages_binary64_exact by lia.
  f_equal. by apply getPages_exact_centred.
Qed.

Lemma getPages_centred_witness :
  Pagination64.getPages 7 50 5 = Some (seqZ (7 - 5 `div` 2) 5).
Proof.
  apply (getPages_centred 7 50 5);
    unfold MAX_SAFE_INTEGER, Pagination64.maxArrayLength;
    [lia|lia|lia| |]; vm_compute; done.
Defined.

(** X5. For [totalPages] up to [2^53 - 1], a window that fits an array
    and a current page up to [2^53 - 1] in magnitude, moving to the next
    page, [currentPage + 1], leaves the window as it is or shifts every
    entry by one; it never jumps. *)
Theorem getPages_slides_by_one (currentPage totalPages maxVisiblePages : Z) :
  0 ≤ totalPages ≤ MAX_SAFE_INTEGER → 0 ≤ maxVisiblePages →
  Z.min maxVisiblePages totalPages ≤ Pagination64.maxArrayLength →
  - MAX_SAFE_INTEGER ≤ currentPage ≤ MAX_SAFE_INTEGER →
  ∃ window next,
    Pagination64.getPages currentPage totalPages maxVisiblePages = Some window
    ∧ Pagination64.getPages (add currentPage 1) totalPages maxVisiblePages
      = Some next
    ∧ (next = window ∨ next = Z.add 1 <$> window).
Proof.
  intros Ht Hm Hlen Hc.
  assert (Hnext : add currentPage 1 = currentPage + 1).
  { unfold add. apply round53_exact. unfold MAX_SAFE_INTEGER in Hc. lia. }
  rewrite Hnext, !getPages_binary64_exact by done.
  eexists _, _. split_and!; [reflexivity..|].
  apply getPages_exact_slides_by_one.
Qed.

Lemma getPages_slides_by_one_witness :
  ∃ window next,
    Pagination64.getPages 3 50 5 = Some window
    ∧ Pagination64.getPages (add 3 1) 50 5 = Some next
    ∧ (next = window ∨ next = Z.add 1 <$> window).
Proof.
  apply (getPages_slides_by_one 3 50 5);
    unfold MAX_SAFE_INTEGER, Pagination64.maxArrayLength; lia.
Defined.



(** ** The request operations *)

Section Chains.
Context {A : Type}.

(** What the chain [fetch(...).then(...).catch(...)] of an operation
    comes to, by the outcome of each stage; [onOk] is what the operation
    does with a successful response. *)
Lemma chain_fulfilled (p : Settled Response) (onOk : Response → Settled A)
    (value : A) :
  catch_ (then_ p (λ response,
            if negb (ok response) then throwServerError response
            else onOk response)) onRejected
  = Fulfilled value
  ↔ ∃ response, p = Fulfilled response ∧ ok response = true
                ∧ onOk response = Fulfilled value.
Proof.
  split.
  - destruct p as [response|reason]; simpl.
    + destruct (ok response) eqn:Hok; simpl.
      * destruct (onOk response) as [v|reason] eqn:Hon; simpl.
        -- intros [= ->]. eauto.
        -- destruct (@onRejected_rejects A reason) as [r ->]. done.
      * unfold throwServerError. destruct (text response) as [m|reason]; simpl.
        -- done.
        -- destruct (@onRejected_rejects A reason) as [r ->]. done.
    + destruct (@onRejected_rejects A reason) as [r ->]. done.
  - intros (response & -> & Hok & Hon). simpl. rewrite Hok. simpl.
    by rewrite Hon.
Qed.

(** A rejection of the chain is a [NetError], or the [TypeError] the
    handler itself throws when the reason it received is [undefined] or
    [null]. *)
Lemma onRejected_reason (error reason : JsValue) :
  @onRejected A error = Rejected reason →
  instanceof_NetError reason = true
  ∨ nullish error = true ∧ read_message error = Rejected reason.
Proof.
  destruct error; simpl; intros [= <-]; auto.
Qed.

Lemma chain_rejected (p : Settled A) (reason : JsValue) :
  catch_ p onRejected = Rejected reason →
  instanceof_NetError reason = true
  ∨ ∃ error, nullish error = true ∧ read_message error = Rejected reason.
Proof.
  destruct p as [v|error]; simpl; [done|].
  intros [?|[? ?]]%onRejected_reason; eauto.
Qed.

Lemma chain_rejected_not_nullish (p : Settled A) (reason : JsValue) :
  catch_ p onRejected = Rejected reason → nullish reason = false.
Proof.
  intros [Hnet|(error & Hnull & Hread)]%chain_rejected.
  - by destruct reason.
  - destruct error; try done; simpl in Hread; by injection Hread as <-.
Qed.

(** An [Error] that is raised while the body of a successful response is
    read is wrapped as a network error. *)
Lemma body_error_chain (p : Settled Response) (response : Response)
    (onOk : Response → Settled A) (name message : string) :
  p = Fulfilled response →
  ok response = true →
  onOk response = Rejected (VError name message) →
  catch_ (then_ p (λ response,
            if negb (ok response) then throwServerError response
            else onOk response)) onRejected
  = Rejected (VNetError network_error (VStr message) (VError name message)).
Proof. intros -> Hok Hon. simpl. rewrite Hok. simpl. by rewrite Hon. Qed.
End Chains.

(** X7. When [fetch] itself rejects with an [Error], each of the five
    operations rejects with a [NetError] of type [network-error] that
    carries the error's message and wraps the error. *)
Theorem transport_failure_is_network_error
    (fetch : Request → Settled Response) (name message : string)
    (page limit : Z) (id : string) (payload : Parsed) (customerId : Z) :
  let e := VNetError network_error (VStr message) (VError name message) in
  (fetch (customerListingRequest page limit) = Rejected (VError name message) →
   fetchCustomerListing fetch page limit = Rejected e)
  ∧ (fetch (customerRequest id) = Rejected (VError name message) →
     fetchCustomer fetch id = Rejected e)
  ∧ (fetch (registerRequest payload) = Rejected (VError name message) →
     registerCustomer fetch payload = Rejected e)
  ∧ (fetch (updateRequest id payload) = Rejected (VError name message) →
     updateCustomer fetch id payload = Rejected e)
  ∧ (fetch (deleteRequest customerId) = Rejected (VError name message) →
     deleteCustomer fetch customerId = Rejected e).
Proof.
  intros e. split_and!; intros Hfetch.
  - unfold fetchCustomerListing. by rewrite Hfetch.
  - unfold fetchCustomer. by rewrite Hfetch.
  - unfold registerCustomer. by rewrite Hfetch.
  - unfold updateCustomer. by rewrite Hfetch.
  - unfold deleteCustomer. by rewrite Hfetch.
Qed.

Lemma transport_failure_is_network_error_witness :
  let fetch := λ _ : Request, Rejected (VError "TypeError" "Failed to fetch") in
  let e := VNetError network_error (VStr "Failed to fetch")
             (VError "TypeError" "Failed to fetch") in
  fetchCustomerListing fetch 1 5 = Rejected e
  ∧ deleteCustomer fetch 7 = Rejected e.
Proof.
  intros fetch e.
  destruct (transport_failure_is_network_error fetch "TypeError"
              "Failed to fetch" 1 5 "7" (PObj []) 7)
    as (H1 & _ & _ & _ & H5).
  split; [apply H1 | apply H5]; reflexivity.
Defined.

(** X8. When a successful response has a body that [response.json()]
    cannot read, the four operations that read it reject with a
    [network-error] wrapping that failure; [deleteCustomer], which never
    reads the body, fulfils. *)
Theorem malformed_body_is_network_error
    (fetch : Request → Settled Response) (response : Response)
    (name message : string)
    (page limit : Z) (id : string) (payload : Parsed) (customerId : Z) :
  ok response = true →
  json response = Rejected (VError name message) →
  let e := VNetError network_error (VStr message) (VError name message) in
  (fetch (customerListingRequest page limit) = Fulfilled response →
   fetchCustomerListing fetch page limit = Rejected e)
  ∧ (fetch (customerRequest id) = Fulfilled response →
     fetchCustomer fetch id = Rejected e)
  ∧ (fetch (registerRequest payload) = Fulfilled response →
     registerCustomer fetch payload = Rejected e)
  ∧ (fetch (updateRequest id payload) = Fulfilled response →
     updateCustomer fetch id payload = Rejected e)
  ∧ (fetch (deleteRequest customerId) = Fulfilled response →
     deleteCustomer fetch customerId = Fulfilled tt).
Proof.
  intros Hok Hjson e. split_and!; intros Hfetch.
  - unfold fetchCustomerListing.
    eapply (body_error_chain _ response); eauto. by rewrite Hjson.
  - unfold fetchCustomer.
    eapply (body_error_chain _ response); eauto. by rewrite Hjson.
  - unfold registerCustomer.
    eapply (body_error_chain _ response); eauto.
  - unfold updateCustomer.
    eapply (body_error_chain _ response); eauto. by rewrite Hjson.
  - unfold deleteCustomer. rewrite Hfetch. simpl. by rewrite Hok.
Qed.

Lemma malformed_body_is_network_error_witness :
  let response := {| ok := true; text := Fulfilled "<html>";
                     json := Rejected (VError "SyntaxError"
                                         "Unexpected token <") |} in
  let fetch := λ _ : Request, Fulfilled response in
  let e := VNetError network_error (VStr "Unexpected token <")
             (VError "SyntaxError" "Unexpected token <") in
  fetchCustomer fetch "7" = Rejected e
  ∧ registerCustomer fetch (PObj []) = Rejected e
  ∧ deleteCustomer fetch 7 = Fulfilled tt.
Proof.
  intros response fetch e.
  destruct (malformed_body_is_network_error fetch response "SyntaxError"
              "Unexpected token <" 1 5 "7" (PObj []) 7 eq_refl eq_refl)
    as (_ & H2 & H3 & _ & H5).
  split_and!; [apply H2 | apply H3 | apply H5]; reflexivity.
Defined.

(** X10. The three operations that validate fulfil exactly when [fetch]
    fulfils with an [ok] response whose body parses as JSON and is accepted
    by the schema of the operation; the value is the schema's output. *)
Theorem validating_operations_fulfil_iff
    (fetch : Request → Settled Response) (value : Parsed)
    (page limit : Z) (id : string) (payload : Parsed) :
  (fetchCustomerListing fetch page limit = Fulfilled value
   ↔ ∃ response data,
       fetch (customerListingRequest page limit) = Fulfilled response
       ∧ ok response = true ∧ json response = Fulfilled data
       ∧ safeParse CustomerListingSchema data = SafeParseSuccess value)
  ∧ (fetchCustomer fetch id = Fulfilled value
     ↔ ∃ response data,
         fetch (customerRequest id) = Fulfilled response
         ∧ ok response = true ∧ json response = Fulfilled data
         ∧ safeParse GetCustomerSchema data = SafeParseSuccess value)
  ∧ (updateCustomer fetch id payload = Fulfilled value
     ↔ ∃ response data,
         fetch (updateRequest id payload) = Fulfilled response
         ∧ ok response = true ∧ json response = Fulfilled data
         ∧ safeParse GetCustomerSchema data = SafeParseSuccess value).
Proof.
  assert (Hstage : ∀ schema response,
            then_ (json response) (λ data, parseAsync schema data)
            = Fulfilled value
            ↔ ∃ data, json response = Fulfilled data
                      ∧ safeParse schema data = SafeParseSuccess value).
  { intros schema response. unfold parseAsync. split.
    - destruct (json response) as [data|]; simpl; [|done].
      destruct (safeParse schema data) eqn:Hp; [|done].
      intros [= ->]. eauto.
    - intros (data & -> & Hp). simpl. by rewrite Hp. }
  split_and!.
  - unfold fetchCustomerListing. rewrite chain_fulfilled.
    setoid_rewrite Hstage.
    split; [intros (r & ? & ? & d & ? & ?) | intros (r & d & ? & ? & ? & ?)];
      eauto 10.
  - unfold fetchCustomer. rewrite chain_fulfilled.
    setoid_rewrite Hstage.
    split; [intros (r & ? & ? & d & ? & ?) | intros (r & d & ? & ? & ? & ?)];
      eauto 10.
  - unfold updateCustomer. rewrite chain_fulfilled.
    setoid_rewrite Hstage.
    split; [intros (r & ? & ? & d & ? & ?) | intros (r & d & ? & ? & ? & ?)];
      eauto 10.
Qed.

(** X11. [registerCustomer] fulfils exactly when the response is [ok] and
    its body parses as JSON, with that JSON value as it is, unvalidated;
    [deleteCustomer] fulfils exactly when the response is [ok], whatever
    its body. *)
Theorem unvalidated_operations_fulfil_iff
    (fetch : Request → Settled Response) (payload : Parsed) (data : Json)
    (customerId : Z) :
  (registerCustomer fetch payload = Fulfilled data
   ↔ ∃ response, fetch (registerRequest payload) = Fulfilled response
                 ∧ ok response = true ∧ json response = Fulfilled data)
  ∧ (deleteCustomer fetch customerId = Fulfilled tt
     ↔ ∃ response, fetch (deleteRequest customerId) = Fulfilled response
                   ∧ ok response = true).
Proof.
  split.
  - unfold registerCustomer. by rewrite chain_fulfilled.
  - unfold deleteCustomer.
    rewrite (chain_fulfilled _ (λ _, Fulfilled tt)).
    split; [intros (r & ? & ? & _) | intros (r & ? & ?)]; eauto.
Qed.

(** X12. Whatever the transport does, a rejection of any of the five
    operations is a [NetError], unless a stage rejected with [undefined] or
    [null], in which case it is the [TypeError] of reading [message] off
    that value. *)
Theorem operations_reject_with_NetError
    (fetch : Request → Settled Response) (reason : JsValue)
    (page limit : Z) (id : string) (payload : Parsed) (customerId : Z) :
  fetchCustomerListing fetch page limit = Rejected reason
  ∨ fetchCustomer fetch id = Rejected reason
  ∨ registerCustomer fetch payload = Rejected reason
  ∨ updateCustomer fetch id payload = Rejected reason
  ∨ deleteCustomer fetch customerId = Rejected reason →
  instanceof_NetError reason = true
  ∨ ∃ error, nullish error = true ∧ read_message error = Rejected reason.
Proof.
  intros [H|[H|[H|[H|H]]]]; revert H.
  - apply chain_rejected.
  - apply chain_rejected.
  - apply chain_rejected.
  - apply chain_rejected.
  - apply chain_rejected.
Qed.

Lemma operations_reject_with_NetError_witness :
  instanceof_NetError (VNetError server_error (VStr "boom") VUndefined) = true
  ∨ ∃ error, nullish error = true
             ∧ read_message error
               = Rejected (VNetError server_error (VStr "boom") VUndefined).
Proof.
  apply (operations_reject_with_NetError
           (λ _, Fulfilled response_500_boom) _ 1 5 "7" (PObj []) 7).
  left. reflexivity.
Defined.

(** X9. When a response is not [ok] and reading its text fails with an
    [Error], each operation rejects with a [network-error] wrapping the
    read failure, not with a [server-error]. *)
Theorem unreadable_error_body_is_network_error
    (fetch : Request → Settled Response) (response : Response)
    (name message : string)
    (page limit : Z) (id : string) (payload : Parsed) (customerId : Z) :
  ok response = false →
  text response = Rejected (VError name message) →
  let e := VNetError network_error (VStr message) (VError name message) in
  (fetch (customerListingRequest page limit) = Fulfilled response →
   fetchCustomerListing fetch page limit = Rejected e)
  ∧ (fetch (customerRequest id) = Fulfilled response →
     fetchCustomer fetch id = Rejected e)
  ∧ (fetch (registerRequest payload) = Fulfilled response →
     registerCustomer fetch payload = Rejected e)
  ∧ (fetch (updateRequest id payload) = Fulfilled response →
     updateCustomer fetch id payload = Rejected e)
  ∧ (fetch (deleteRequest customerId) = Fulfilled response →
     deleteCustomer fetch customerId = Rejected e).
Proof.
  intros Hok Htext e.
  assert (Hchain : ∀ A (onOk : Response → Settled A),
            catch_ (then_ (Fulfilled response) (λ response,
                      if negb (ok response) then throwServerError response
                      else onOk response)) onRejected
            = Rejected e).
  { intros A onOk. simpl. rewrite Hok. simpl.
    unfold throwServerError. by rewrite Htext. }
  split_and!; intros Hfetch.
  - unfold fetchCustomerListing. rewrite Hfetch. apply Hchain.
  - unfold fetchCustomer. rewrite Hfetch. apply Hchain.
  - unfold registerCustomer. rewrite Hfetch. apply Hchain.
  - unfold updateCustomer. rewrite Hfetch. apply Hchain.
  - unfold deleteCustomer. rewrite Hfetch. apply (Hchain _ (λ _, Fulfilled tt)).
Qed.

Lemma unreadable_error_body_is_network_error_witness :
  let response := {| ok := false;
                     text := Rejected (VError "TypeError" "network error");
                     json := Rejected (VError "TypeError" "network error") |} in
  let fetch := λ _ : Request, Fulfilled response in
  let e := VNetError network_error (VStr "network error")
             (VError "TypeError" "network error") in
  fetchCustomerListing fetch 1 5 = Rejected e
  ∧ deleteCustomer fetch 7 = Rejected e.
Proof.
  intros response fetch e.
  destruct (unreadable_error_body_is_network_error fetch response "TypeError"
              "network error" 1 5 "7" (PObj []) 7 eq_refl eq_refl)
    as (H1 & _ & _ & _ & H5).
  split; [apply H1 | apply H5]; reflexivity.
Defined.

(** ** The schemas *)

Lemma safeParse_success (schema : Schema) (data : Json) (value : Parsed) :
  safeParse schema data = SafeParseSuccess value
  ↔ _parse schema [] (Some data) = ([], Some value).
Proof.
  unfold safeParse.
  destruct (_parse schema [] (Some data)) as [[|i iss] [v|]]; simpl;
    split; intros H; try done; congruence.
Qed.

(** One field of an object: its result, and the results of the rest. *)
Lemma mergeResults_cons {A} (iss : list ZodIssue) (v : option A)
    (rest : list (list ZodIssue * option A)) (vs : list A) :
  mergeResults ((iss, v) :: rest) = ([], Some vs)
  ↔ ∃ x xs, iss = [] ∧ v = Some x ∧ vs = x :: xs
            ∧ mergeResults rest = ([], Some xs).
Proof.
  unfold mergeResults. cbn [flat_map fmap list_fmap all_values fst snd].
  split.
  - intros [= Hiss Hv]. apply app_eq_nil in Hiss as [-> Hrest].
    destruct v as [x|]; [|done].
    destruct (all_values rest.*2) as [xs|] eqn:Hxs; [|done].
    injection Hv as <-. exists x, xs. by rewrite Hrest.
  - intros (x & xs & -> & -> & -> & [= -> Hxs]).
    cbn [all_values]. by rewrite Hxs.
Qed.

Lemma mergeResults_nil {A} (vs : list A) :
  @mergeResults A [] = ([], Some vs) ↔ vs = [].
Proof. unfold mergeResults. simpl. split; [by intros [= <-]|by intros ->]. Qed.

Lemma parse_string_ok path input value :
  _parse (z_string []) path input = ([], Some value)
  ↔ ∃ s, input = Some (JStr s) ∧ value = PStr s.
Proof.
  destruct input as [[]|]; simpl; split;
    try (intros [= <-]; eauto); try (intros (? & [= <-] & ->)); try done;
    intros (? & ? & ?); done.
Qed.

Lemma parse_number_ok path input value :
  _parse z_number path input = ([], Some value)
  ↔ ∃ n, input = Some (JNum n) ∧ value = PNum n.
Proof.
  destruct input as [[]|]; simpl; split;
    try (intros [= <-]; eauto); try (intros (? & [= <-] & ->)); try done;
    intros (? & ? & ?); done.
Qed.

Lemma parse_date_ok path input value :
  _parse (z_transform (z_string []) new_Date) path input = ([], Some value)
  ↔ ∃ s, input = Some (JStr s) ∧ value = PDate s.
Proof.
  destruct input as [[]|]; simpl; split;
    try (intros [= <-]; eauto); try (intros (? & [= <-] & ->)); try done;
    intros (? & ? & ?); done.
Qed.

Lemma object_result (m : list ZodIssue * option (list (string * Parsed)))
    (value : Parsed) :
  (m.1, PObj <$> m.2) = ([], Some value)
  ↔ ∃ vs, m = ([], Some vs) ∧ value = PObj vs.
Proof.
  destruct m as [iss [vs|]]; simpl; split.
  - intros [= -> <-]. eauto.
  - by intros (? & [= -> ->] & ->).
  - done.
  - by intros (? & ? & _).
Qed.

Lemma field_result (r : list ZodIssue * option Parsed) (key : string)
    (rest : list (list ZodIssue * option (string * Parsed)))
    (vs : list (string * Parsed)) :
  mergeResults ((r.1, (λ v, (key, v)) <$> r.2) :: rest) = ([], Some vs)
  ↔ ∃ v xs, r = ([], Some v) ∧ vs = (key, v) :: xs
            ∧ mergeResults rest = ([], Some xs).
Proof.
  rewrite mergeResults_cons. destruct r as [iss [v|]]; simpl; split.
  - intros (x & xs & -> & [= <-] & -> & Hm). eauto.
  - intros (v' & xs & [= -> ->] & -> & Hm). eauto 6.
  - by intros (x & xs & _ & ? & _).
  - by intros (v' & xs & ? & _).
Qed.

Lemma CustomerSchema_parse_ok path data value :
  _parse CustomerSchema path (Some data) = ([], Some value)
  ↔ customer_record data value.
Proof.
  unfold customer_record.
  destruct data as [| | | | |props];
    try (split; [simpl; done | intros (? & ? & ? & ? & ? & ? & ? & ? & ? & _); done]).
  unfold CustomerSchema. cbn [_parse map fst snd].
  rewrite object_result. split.
  - intros (vs & Hm & ->).
    apply field_result in Hm as (? & ? & (id & Hid & ->)%parse_number_ok & -> & Hm).
    apply field_result in Hm as (? & ? & (name & Hname & ->)%parse_string_ok & -> & Hm).
    apply field_result in Hm as (? & ? & (dob & Hdob & ->)%parse_string_ok & -> & Hm).
    apply field_result in Hm as (? & ? & (email & Hemail & ->)%parse_string_ok & -> & Hm).
    apply field_result in Hm as (? & ? & (contact & Hcontact & ->)%parse_string_ok & -> & Hm).
    apply field_result in Hm as (? & ? & (created & Hcreated & ->)%parse_date_ok & -> & Hm).
    apply field_result in Hm as (? & ? & (updated & Hupdated & ->)%parse_date_ok & -> & Hm).
    apply mergeResults_nil in Hm as ->.
    exists props, id, name, dob, email, contact, created, updated.
    split_and!; done.
  - intros (props' & id & name & dob & email & contact & created & updated
            & [= <-] & Hid & Hname & Hdob & Hemail & Hcontact & Hcreated
            & Hupdated & ->).
    eexists. split; [|reflexivity].
    apply field_result. do 2 eexists. split_and!; [apply parse_number_ok; eauto|done|].
    do 4 (apply field_result; do 2 eexists;
          split_and!; [apply parse_string_ok; eauto|done|]).
    do 2 (apply field_result; do 2 eexists;
          split_and!; [apply parse_date_ok; eauto|done|]).
    by apply mergeResults_nil.
Qed.

(** X13. [CustomerSchema] accepts exactly the objects that have a number
    [id] and the six string fields; its output has those seven fields in
    the schema's order, the two timestamps turned into [Date]s, and nothing
    else of the input. *)
Theorem CustomerSchema_accepts (data : Json) (value : Parsed) :
  safeParse CustomerSchema data = SafeParseSuccess value
  ↔ customer_record data value.
Proof. rewrite safeParse_success. apply CustomerSchema_parse_ok. Qed.

Lemma ApiResponseSchema_parse_ok (schema : Schema) path data value :
  _parse (ApiResponseSchema schema) path (Some data) = ([], Some value)
  ↔ ∃ props inner,
      data = JObj props
      ∧ _parse schema (path ++ [PKey "data"]) (assoc_get "data" props)
        = ([], Some inner)
      ∧ value = PObj [("data", inner)].
Proof.
  destruct data as [| | | | |props];
    try (split; [simpl; done | intros (? & ? & ? & _); done]).
  unfold ApiResponseSchema. cbn [_parse map fst snd].
  rewrite object_result. split.
  - intros (vs & Hm & ->).
    apply field_result in Hm as (inner & ? & Hinner & -> & Hm).
    apply mergeResults_nil in Hm as ->. eauto.
  - intros (props' & inner & [= <-] & Hinner & ->).
    eexists. split; [|reflexivity].
    apply field_result. do 2 eexists. split_and!; [done..|].
    by apply mergeResults_nil.
Qed.

(** X14. [GetCustomerSchema] accepts exactly the objects whose [data] is a
    customer, and returns [{ data }] with the parsed customer. *)
Theorem GetCustomerSchema_accepts (data : Json) (value : Parsed) :
  safeParse GetCustomerSchema data = SafeParseSuccess value
  ↔ customer_body data value.
Proof.
  rewrite safeParse_success. unfold GetCustomerSchema, customer_body.
  rewrite ApiResponseSchema_parse_ok. split.
  - intros (props & inner & -> & Hinner & ->).
    destruct (assoc_get "data" props) as [customer|] eqn:Hdata.
    + apply CustomerSchema_parse_ok in Hinner. eauto 10.
    + simpl in Hinner. done.
  - intros (props & customer & record & -> & Hdata & Hrec & ->).
    exists props, record. split_and!; [done| |done].
    rewrite Hdata. by apply CustomerSchema_parse_ok.
Qed.

Lemma array_result (m : list ZodIssue * option (list Parsed))
    (value : Parsed) :
  (m.1, PArr <$> m.2) = ([], Some value)
  ↔ ∃ rows, m = ([], Some rows) ∧ value = PArr rows.
Proof.
  destruct m as [iss [vs|]]; simpl; split.
  - intros [= -> <-]. eauto.
  - by intros (? & [= -> ->] & ->).
  - done.
  - by intros (? & ? & _).
Qed.

Lemma elements_result (element : Schema) (P : Json → Parsed → Prop)
    (items : list Json) :
  (∀ path item row,
     _parse element path (Some item) = ([], Some row) ↔ P item row) →
  ∀ (g : nat → list PathElem) (rows : list Parsed),
    mergeResults (imap (λ index item, _parse element (g index) (Some item))
                       items)
    = ([], Some rows)
    ↔ Forall2 P items rows.
Proof.
  intros HP. induction items as [|item items IH]; intros g rows.
  - cbn [imap]. rewrite mergeResults_nil. split.
    + intros ->. constructor.
    + by intros ->%Forall2_nil_inv_l.
  - cbn [imap].
    destruct (_parse element (g 0%nat) (Some item)) as [iss v] eqn:Hp.
    rewrite mergeResults_cons. split.
    + intros (x & xs & -> & -> & -> & Hm).
      constructor; [by apply (HP (g 0%nat))|].
      by apply (IH (g ∘ S)).
    + intros (row & rows' & Hrow & Hrows & ->)%Forall2_cons_inv_l.
      apply (HP (g 0%nat)) in Hrow. rewrite Hp in Hrow.
      injection Hrow as -> ->.
      exists row, rows'. split_and!; [done..|].
      by apply (IH (g ∘ S)).
Qed.

Lemma CustomerListingSchema_shape (data : Json) (value : Parsed) :
  safeParse CustomerListingSchema data = SafeParseSuccess value
  ↔ listing_body data value.
Proof.
  rewrite safeParse_success. unfold CustomerListingSchema, listing_body.
  rewrite ApiResponseSchema_parse_ok.
  assert (Hinner : ∀ props value',
    _parse (z_object [("records", z_array CustomerSchema);
                      ("total_pages", z_number)])
           ([] ++ [PKey "data"]) (assoc_get "data" props)
    = ([], Some value')
    ↔ ∃ inner items total rows,
        assoc_get "data" props = Some (JObj inner)
        ∧ assoc_get "records" inner = Some (JArr items)
        ∧ assoc_get "total_pages" inner = Some (JNum total)
        ∧ Forall2 customer_record items rows
        ∧ value' = PObj [("records", PArr rows); ("total_pages", PNum total)]).
  { intros props value'.
    destruct (assoc_get "data" props) as [[| | | | |inner]|];
      try (split; [simpl; done | intros (? & ? & ? & ? & ? & _); done]).
    cbn [_parse map fst snd]. rewrite object_result. split.
    - intros (vs & Hm & ->).
      apply field_result in Hm as (records & ? & Hrecords & -> & Hm).
      apply field_result
        in Hm as (? & ? & (total & Htotal & ->)%parse_number_ok & -> & Hm).
      apply mergeResults_nil in Hm as ->.
      destruct (assoc_get "records" inner) as [[| | | |items|]|] eqn:Hrec;
        try (simpl in Hrecords; done).
      cbn [_parse] in Hrecords.
      apply array_result in Hrecords as (rows & Hrows & ->).
      apply (elements_result _ customer_record) in Hrows;
        [|intros; apply CustomerSchema_parse_ok].
      exists inner, items, total, rows. by split_and!.
    - intros (inner' & items & total & rows & [= <-] & Hrecords & Htotal
              & Hrows & ->).
      eexists. split; [|reflexivity].
      apply field_result. do 2 eexists. split_and!; [|done|].
      + rewrite Hrecords. cbn [_parse]. apply array_result.
        eexists. split; [|reflexivity].
        apply (elements_result _ customer_record); [|done].
        intros. apply CustomerSchema_parse_ok.
      + apply field_result. do 2 eexists.
        split_and!; [apply parse_number_ok; eauto|done|].
        by apply mergeResults_nil. }
  setoid_rewrite Hinner. split.
  - intros (props & inner & -> & (inner' & items & total & rows & ? & ? & ?
                                  & ? & ->) & ->).
    exists props, inner', items, total, rows. by split_and!.
  - intros (props & inner & items & total & rows & -> & ? & ? & ? & ? & ->).
    eexists props, _. split_and!; [done| |done].
    exists inner, items, total, rows. by split_and!.
Qed.

(** X15. [CustomerListingSchema] accepts exactly the objects whose [data]
    has an array [records] of customers and a number [total_pages]; the
    output keeps the records in order, one parsed customer each. *)
Theorem CustomerListingSchema_accepts (data : Json) (value : Parsed) :
  safeParse CustomerListingSchema data = SafeParseSuccess value
  ↔ listing_body data value.
Proof. apply CustomerListingSchema_shape. Qed.


(** ** The forms *)

(** No entry makes [__proto__] an own property of the payload. *)
Lemma collectPayload_proto (entries : list (string * FormDataEntryValue)) :
  collectPayload entries !! "__proto__" = None.
Proof.
  induction entries as [|[k v] entries IH] using rev_ind; [done|].
  rewrite collectPayload_snoc. unfold assign_entry.
  case_decide; [done|]. by rewrite lookup_insert_ne.
Qed.

Lemma collectPayload_entry (entries : list (string * FormDataEntryValue))
    (key : string) :
  key ≠ "__proto__" →
  collectPayload entries !! key = last_entry key entries.
Proof.
  intros Hkey. unfold last_entry.
  induction entries as [|[k v] entries IH] using rev_ind; [done|].
  rewrite collectPayload_snoc, omap_app, last_app. cbn [omap list_omap fst snd].
  unfold assign_entry.
  destruct (decide (k = key)) as [->|Hne].
  - rewrite decide_False by done. by rewrite lookup_insert_eq.
  - case_decide; [done|]. by rewrite lookup_insert_ne.
Qed.

Lemma last_entry_None (entries : list (string * FormDataEntryValue))
    (key : string) :
  last_entry key entries = None ↔ key ∉ entries.*1.
Proof.
  unfold last_entry. rewrite last_None.
  induction entries as [|[k v] entries IH]; simpl.
  - split; [intros _; apply not_elem_of_nil|done].
  - fold (omap (λ kv : string * FormDataEntryValue,
              if decide (kv.1 = key) then Some (entry_toString kv.2)
              else None) entries).
    rewrite not_elem_of_cons. destruct (decide (k = key)) as [->|Hne].
    + split; [done|]. by intros [? _].
    + rewrite IH. split; [by split|by intros [_ ?]].
Qed.

Lemma RegisterCustomerSchema_safeParse `{StringFormats}
    (payload : gmap string string) :
  safeParse RegisterCustomerSchema (payload_to_Json payload)
  = match register_issues payload with
    | [] => SafeParseSuccess (form_data payload)
    | issues => SafeParseError (mkZodError issues)
    end.
Proof.
  unfold safeParse, payload_to_Json, RegisterCustomerSchema.
  cbn -[map_to_list]. rewrite !assoc_get_map_to_list, !lookup_fmap.
  unfold register_issues, required_string, checked_string, form_data.
  destruct (payload !! "name") as [name|], (payload !! "email") as [email|],
           (payload !! "contact") as [contact|], (payload !! "dob") as [dob|];
    cbn;
    repeat match goal with
    | |- context [emailRegex_test ?s] => destruct (emailRegex_test s)
    | |- context [dateRegex_test ?s] => destruct (dateRegex_test s)
    end; reflexivity.
Qed.

(** X17. The register form submits exactly when all four fields are
    present, the e-mail passes the e-mail test and the date of birth passes
    the date test; it then resets the form and sends the four fields only.
    Otherwise the alert lists, in field order, [Required] for each missing
    field, [Invalid email] and [Invalid date]. *)
Theorem RegisterCustomer_onSubmit_spec `{StringFormats}
    (entries : list (string * FormDataEntryValue)) :
  RegisterCustomer_onSubmit entries
  = match register_issues (collectPayload entries) with
    | [] => [PreventDefault; FormReset;
             Mutate (form_data (collectPayload entries))]
    | issues =>
        [PreventDefault;
         Alert (Array_join ", " (map issue_message issues) +:+ newline
                +:+ "Please correct the errors and try again.")]
    end.
Proof.
  unfold RegisterCustomer_onSubmit. rewrite RegisterCustomerSchema_safeParse.
  by destruct (register_issues _).
Qed.

(** X18. The manage form, submitted with its four fields, is never blocked
    by validation, whatever the strings are: the update is sent with
    exactly the four fields, each with the value of its last entry. *)
Theorem ManageCustomer_complete_form_is_sent
    (entries : list (string * FormDataEntryValue)) (name email contact dob : string) :
  last_entry "name" entries = Some name →
  last_entry "email" entries = Some email →
  last_entry "contact" entries = Some contact →
  last_entry "dob" entries = Some dob →
  ManageCustomer_onSubmit entries
  = [PreventDefault;
     Mutate (PObj [("name", PStr name); ("email", PStr email);
                   ("contact", PStr contact); ("dob", PStr dob)])].
Proof.
  intros Hn He Hc Hd. unfold ManageCustomer_onSubmit.
  rewrite UpdateCustomerSchema_safeParse.
  rewrite !collectPayload_entry by done. rewrite Hn, He, Hc, Hd. reflexivity.
Qed.

Lemma ManageCustomer_complete_form_is_sent_witness :
  ManageCustomer_onSubmit
    [("name", EntryString ""); ("email", EntryString "not an address");
     ("contact", EntryString "0"); ("dob", EntryString "tomorrow");
     ("name", EntryString "jane")]
  = [PreventDefault;
     Mutate (PObj [("name", PStr "jane"); ("email", PStr "not an address");
                   ("contact", PStr "0"); ("dob", PStr "tomorrow")])].
Proof.
  apply (ManageCustomer_complete_form_is_sent _ "jane" "not an address" "0"
           "tomorrow"); reflexivity.
Defined.

(** X16. The payload a form collects holds, for each name other than
    [__proto__], the value of the last entry with that name; appending an
    entry overrides the name; such a name is absent exactly when no entry
    has it.  An entry named [__proto__] leaves no property behind: the
    assignment goes to the inherited setter. *)
Theorem collectPayload_lookup (entries : list (string * FormDataEntryValue))
    (key : string) :
  collectPayload entries !! key
  = (if decide (key = "__proto__") then None else last_entry key entries)
  ∧ (∀ value, collectPayload (entries ++ [(key, value)]) !! key
              = if decide (key = "__proto__") then None
                else Some (entry_toString value))
  ∧ (collectPayload entries !! key = None
     ↔ key = "__proto__" ∨ key ∉ entries.*1).
Proof.
  destruct (decide (key = "__proto__")) as [->|Hkey].
  - split_and!.
    + apply collectPayload_proto.
    + intros value. apply collectPayload_proto.
    + rewrite collectPayload_proto. split; [by left|done].
  - split_and!.
    + by apply collectPayload_entry.
    + intros value. rewrite collectPayload_snoc. unfold assign_entry.
      rewrite decide_False by done. apply lookup_insert_eq.
    + rewrite collectPayload_entry, last_entry_None by done.
      split; [by right|]. by intros [?|?].
Qed.

(** A form with a field named [__proto__]: the payload has the other
    field only. *)
Example collectPayload_proto_entry :
  collectPayload [("__proto__", EntryString "x"); ("name", EntryString "jane")]
  = {[ "name" := "jane" ]}.
Proof. reflexivity. Qed.

(** ** The manage page *)

(** X19. From either of its two states the mode toggle, called without
    argument twice, is back where it was, and after one call it is in one
    of the two states. *)
Theorem toggle_twice {T} `{EqDecision T} (positive negative state : T) :
  state = positive ∨ state = negative →
  toggle positive negative None (toggle positive negative None state) = state
  ∧ (toggle positive negative None state = positive
     ∨ toggle positive negative None state = negative).
Proof.
  intros Hstate. unfold toggle.
  repeat case_decide; destruct Hstate; subst; split; auto; congruence.
Qed.

Lemma toggle_twice_witness :
  toggle "view" "edit" None (toggle "view" "edit" None "edit") = "edit"
  ∧ (toggle "view" "edit" None "edit" = "view"
     ∨ toggle "view" "edit" None "edit" = "edit").
Proof. apply (toggle_twice "view" "edit" "edit"). by right. Defined.

Lemma set_prop_lookup key value props k :
  assoc_get k (set_prop key value props)
  = if decide (k = key) then Some value else assoc_get k props.
Proof.
  induction props as [|[k' v'] rest IH]; simpl.
  - destruct (decide (key = k)) as [->|]; [by rewrite decide_True|].
    by rewrite decide_False.
  - destruct (decide (k' = key)) as [->|Hne]; simpl.
    + destruct (decide (key = k)) as [->|]; [by rewrite decide_True|].
      by rewrite decide_False.
    + destruct (decide (k' = k)) as [->|Hne'].
      * by rewrite decide_False.
      * apply IH.
Qed.

Lemma assign_lookup base over k :
  assoc_get k (assign base over)
  = match last (omap (λ kv : string * Parsed,
                        if decide (kv.1 = k) then Some kv.2 else None) over) with
    | Some v => Some v
    | None => assoc_get k base
    end.
Proof.
  unfold assign. revert base.
  induction over as [|[k' v'] over IH] using rev_ind; intros base; [done|].
  rewrite fold_left_app, omap_app, last_app. cbn [fold_left omap list_omap fst snd].
  rewrite set_prop_lookup.
  destruct (decide (k' = k)) as [->|Hne].
  - by rewrite decide_True.
  - rewrite decide_False by done. simpl. apply IH.
Qed.

Lemma assign_lookup_NoDup base over k :
  NoDup over.*1 →
  assoc_get k (assign base over)
  = match assoc_get k over with
    | Some v => Some v
    | None => assoc_get k base
    end.
Proof.
  intros Hnd. rewrite assign_lookup. f_equal.
  induction over as [|[k' v'] over IH]; [done|].
  apply NoDup_cons in Hnd as [Hk Hnd]. cbn [omap list_omap fst snd assoc_get].
  destruct (decide (k' = k)) as [->|Hne].
  - assert (Hnone : omap (λ kv : string * Parsed,
                if decide (kv.1 = k) then Some kv.2 else None) over = []).
    { clear IH Hnd. induction over as [|[k2 v2] over IH2]; [done|].
      cbn [omap list_omap fst snd].
      apply not_elem_of_cons in Hk as [Hk Hk'].
      rewrite decide_False by done. by apply IH2. }
    cbn [omap list_omap] in Hnone |- *. by rewrite Hnone.
  - by apply IH.
Qed.

(** X20. The optimistic update replaces, inside [data], exactly the fields
    the request carries and keeps every other field of [data] and every
    other property of the cached response. *)
Theorem optimistic_update_fields
    (props fields pfields : list (string * Parsed)) :
  assoc_get "data" props = Some (PObj fields) →
  NoDup pfields.*1 →
  ∃ props' fields',
    optimistic (PObj props) (PObj pfields) = PObj props'
    ∧ assoc_get "data" props' = Some (PObj fields')
    ∧ (∀ k, k ≠ "data" → assoc_get k props' = assoc_get k props)
    ∧ (∀ k, assoc_get k fields'
            = match assoc_get k pfields with
              | Some v => Some v
              | None => assoc_get k fields
              end).
Proof.
  intros Hdata Hnd.
  exists (set_prop "data" (PObj (assign fields pfields)) props),
         (assign fields pfields).
  split_and!.
  - unfold optimistic, data_props, own_props. by rewrite Hdata.
  - rewrite set_prop_lookup. by rewrite decide_True.
  - intros k Hk. rewrite set_prop_lookup. by rewrite decide_False.
  - intros k. by apply assign_lookup_NoDup.
Qed.

Lemma optimistic_update_fields_witness :
  ∃ props' fields',
    optimistic
      (PObj [("data", PObj [("id", PNum 1); ("name", PStr "jane");
                            ("created_at", PDate "2024-09-13T16:12:15Z")])])
      (PObj [("name", PStr "joan")])
    = PObj props'
    ∧ assoc_get "data" props' = Some (PObj fields')
    ∧ (∀ k, k ≠ "data"
            → assoc_get k props'
              = assoc_get k
                  [("data", PObj [("id", PNum 1); ("name", PStr "jane");
                                  ("created_at",
                                   PDate "2024-09-13T16:12:15Z")])])
    ∧ (∀ k, assoc_get k fields'
            = match assoc_get k [("name", PStr "joan")] with
              | Some v => Some v
              | None =>
                  assoc_get k [("id", PNum 1); ("name", PStr "jane");
                               ("created_at", PDate "2024-09-13T16:12:15Z")]
              end).
Proof.
  apply (optimistic_update_fields
           [("data", PObj [("id", PNum 1); ("name", PStr "jane");
                           ("created_at", PDate "2024-09-13T16:12:15Z")])]
           [("id", PNum 1); ("name", PStr "jane");
            ("created_at", PDate "2024-09-13T16:12:15Z")]
           [("name", PStr "joan")]).
  - reflexivity.
  - repeat constructor. apply not_elem_of_nil.
Defined.

(** X21. When an update settles: after success the cache holds the
    response of the server, whatever the optimistic value was, and is not
    marked invalid; after failure the cache still holds the optimistic
    value, if it held any, and is marked invalid. *)
Theorem update_settles (fetch : Request → Settled Response) (id : string)
    (param : Parsed) (q : CustomerQuery) :
  match updateCustomer fetch id param with
  | Fulfilled resp =>
      update fetch id param q = {| cached := Some resp; isInvalidated := false |}
  | Rejected _ =>
      update fetch id param q
      = {| cached := (λ old, optimistic old param) <$> cached q;
           isInvalidated := true |}
  end.
Proof.
  unfold update.
  destruct (updateCustomer fetch id param) as [resp|reason] eqn:Hup.
  - reflexivity.
  - unfold updateCustomer in Hup.
    apply chain_rejected_not_nullish in Hup.
    unfold onSettled. rewrite Hup.
    unfold onMutate, setQueryDataWith, invalidateQuery.
    by destruct q as [[old|] inv].
Qed.

(** ** The listing controller, along its runs *)

Lemma run_snoc s events e : run s (events ++ [e]) = step (run s events) e.
Proof. unfold run. by rewrite fold_left_app. Qed.

Lemma step_limit s e : limit (step s e) = limit s.
Proof.
  destruct e as [p|key fetch|id fetch]; simpl.
  - by case_decide.
  - unfold settleQuery. by case_decide.
  - by destruct (deleteCustomer fetch id).
Qed.

(** X22. Along every run of the listing the page size stays 5. *)
Theorem limit_never_changes (events : list Event) :
  limit (run initial events) = 5.
Proof.
  induction events as [|e events IH] using rev_ind; [done|].
  by rewrite run_snoc, step_limit.
Qed.



